(** * HTPA32x32d tools: timestamp matching, samples, file managers

    A shallow embedding of [tools.py].  Python floats are represented by
    exact rationals ([Q]); Python lists by [list]; exceptions by [None] or
    by an explicit error constructor. *)

From Stdlib Require Import ZArith NArith QArith Qabs Qround Lqa Lia List String
  Ascii DecimalString.
From stdpp Require Import base option list strings gmap.

Local Open Scope nat_scope.

(** ** NumPy helpers *)

Module Np.

Section Argmin.
Context {A : Type} (ltb : A -> A -> bool).

(** [np.argmin] scans left to right and keeps the first smallest entry. *)
Fixpoint argmin_from (best : A) (besti i : nat) (l : list A) : nat :=
  match l with
  | [] => besti
  | x :: l' =>
      if ltb x best then argmin_from x i (S i) l'
      else argmin_from best besti (S i) l'
  end.

(** [np.argmin] raises [ValueError] on an empty sequence. *)
Definition argmin (l : list A) : option nat :=
  match l with
  | [] => None
  | x :: l' => Some (argmin_from x 0 1 l')
  end.
End Argmin.

(** Strict comparison of rationals as a boolean. *)
Definition Qltb (x y : Q) : bool := negb (Qle_bool y x).

(** [scipy.spatial.distance.cdist] on two column vectors (shape (n,1) and
    (m,1)) with the default Euclidean metric: entry (j,k) is
    sqrt((XA[j]-XB[k])^2), that is |XA[j]-XB[k]|.  The result keeps its
    number of columns, which a list of rows loses when there is no row. *)
Definition cdist (XA XB : list Q) : nat * list (list Q) :=
  (length XB, map (fun a => map (fun b => Qabs (a - b)) XB) XA).

(** [m.argmin(axis=-1)]: one index per row; an empty reduction axis raises. *)
Definition argmin_last_axis (m : nat * list (list Q)) : option (list nat) :=
  if Nat.eqb (fst m) 0 then None else mapM (argmin Qltb) (snd m).

(** [np.min] of a list: raises [ValueError] on an empty one. *)
Definition min (l : list Q) : option Q :=
  match l with
  | [] => None
  | x :: l' => Some (fold_left (fun m y => if Qltb y m then y else m) l' x)
  end.

(** [a[ids]] with a list of positions: one entry per position; a position
    out of range raises [IndexError]. *)
Definition take_indices {A} (a : list A) (ids : list nat) : option (list A) :=
  mapM (fun k => a !! k) ids.

End Np.

(** ** Timestamp matcher *)

(** [match_timesteps], applied to the list of its positional arguments. *)
Definition match_timesteps (timestamps_lists : list (list Q))
  : option (list (list nat)) :=
  let ts_list := timestamps_lists in
  min_len_idx ← Np.argmin Nat.ltb (map length ts_list);
  min_len_ts ← ts_list !! min_len_idx;
  mapM (fun x => x)
    (imap (fun idx ts =>
             if decide (idx = min_len_idx)
             then Some (seq 0 (length min_len_ts))
             else Np.argmin_last_axis (Np.cdist min_len_ts ts))
          ts_list).

(** ** Samples *)

(** A frame is a 2-D grid of temperatures, an array a sequence of frames
    (shape [frames, height, width]). *)
Definition frame := list (list Q).

(** The attributes of [TPA_Sample_from_data]. *)
Record TPA_Sample_from_data := {
  filepaths : option (list string);
  ids : list string;
  arrays : list (list frame);
  timestamps : list (list Q)
}.

(** [_TPA_Sample.test_alignment]; the generator never evaluates
    [lengths[0]] when there is no view. *)
Definition test_alignment (self : TPA_Sample_from_data) : bool :=
  let lengths := map length (timestamps self) in
  match lengths with
  | [] => true
  | l0 :: _ => forallb (fun l => Nat.eqb l l0) lengths
  end.

(** One turn of the loop of [align_timesteps]: view [i] is re-indexed in
    place; a missing entry or a position out of range raises. *)
Definition align_view (indexes : list (list nat))
    (st : list (list frame) * list (list Q)) (i : nat)
  : option (list (list frame) * list (list Q)) :=
  let '(arrs, tss) := st in
  a ← arrs !! i;
  ix ← indexes !! i;
  a' ← Np.take_indices a ix;
  ts ← tss !! i;
  ts' ← Np.take_indices ts ix;
  Some (<[i := a']> arrs, <[i := ts']> tss).

Fixpoint align_views (indexes : list (list nat)) (views : list nat)
    (st : list (list frame) * list (list Q))
  : option (list (list frame) * list (list Q)) :=
  match views with
  | [] => Some st
  | i :: views' => st' ← align_view indexes st i; align_views indexes views' st'
  end.

(** [TPA_Sample_from_data.align_timesteps]; [None] stands for an exception. *)
Definition align_timesteps (reset_T0 : bool) (self : TPA_Sample_from_data)
  : option TPA_Sample_from_data :=
  indexes ← match_timesteps (timestamps self);
  '(arrs, tss) ← align_views indexes (seq 0 (length (ids self)))
                    (arrays self, timestamps self);
  if reset_T0 then
    firsts ← mapM (fun ts => ts !! 0) tss;
    sample_T0_min ← Np.min firsts;
    Some {| filepaths := filepaths self; ids := ids self; arrays := arrs;
            timestamps := map (fun ts => map (fun t => t - sample_T0_min)%Q ts) tss |}
  else
    Some {| filepaths := filepaths self; ids := ids self; arrays := arrs;
            timestamps := tss |}.

(** What the loop of [align_timesteps] leaves in a list of per-view
    sequences once the views before [n] have been re-indexed. *)
Definition reindex {A} (indexes : list (list nat)) (n : nat)
    (xs : list (list A)) : list (list A) :=
  imap (fun i x =>
          if decide (i < n)
          then default x (indexes !! i ≫= Np.take_indices x)
          else x) xs.

(** A sample of at least one view: one id, one array and one non-empty
    timestamp list per view, each array with one frame per timestamp. *)
Definition sample_wf (s : TPA_Sample_from_data) : Prop :=
  timestamps s <> []
  /\ Forall (fun ts => ts <> []) (timestamps s)
  /\ length (ids s) = length (timestamps s)
  /\ Forall2 (fun (a : list frame) (ts : list Q) => length a = length ts)
       (arrays s) (timestamps s).


(** A data-backed sample without any view. *)
Definition no_views : TPA_Sample_from_data :=
  {| filepaths := None; ids := []; arrays := []; timestamps := [] |}.

(** Two views of one 1x1 frame sequence each, recorded at different rates. *)
Definition two_views : TPA_Sample_from_data :=
  {| filepaths := None;
     ids := ["0"; "1"]%string;
     arrays := [ [ [[20]]; [[21]]; [[22]] ]; [ [[30]]; [[31]] ] ]%Q;
     timestamps := [ [10.5; 11; 11.5]; [10.25; 11.6] ]%Q |}.

(** ** Strings and paths *)

Module Str.

(** Current piece of a split grows by one character at its front. *)
Definition cons_head (c : ascii) (l : list string) : list string :=
  match l with
  | p :: ps => String c p :: ps
  | [] => [String c EmptyString]
  end.

(** [s.split(sep)] for a non-empty [sep]: occurrences of [sep] are found
    from left to right and do not overlap; [skip] counts the characters of
    a separator just found that are still to be passed over. *)
Fixpoint split_from (sep : string) (skip : nat) (s : string) : list string :=
  match s with
  | EmptyString => [EmptyString]
  | String c s' =>
      match skip with
      | S k => split_from sep k s'
      | O =>
          if String.prefix sep s
          then EmptyString :: split_from sep (String.length sep - 1) s'
          else cons_head c (split_from sep 0 s')
      end
  end.

Definition split (sep s : string) : list string := split_from sep 0 s.

(** [sep.join(l)] *)
Fixpoint join (sep : string) (l : list string) : string :=
  match l with
  | [] => EmptyString
  | [p] => p
  | p :: ps => p +:+ sep +:+ join sep ps
  end.

(** Number of positions of [s] at which ["ID"] starts. *)
Fixpoint occurrences_ID (s : string) : nat :=
  match s with
  | EmptyString => 0
  | String _ s' =>
      (if String.prefix "ID" s then 1 else 0) + occurrences_ID s'
  end.

End Str.

(** [remove_extension]: the text before the first dot. *)
Definition remove_extension (filepath : string) : string :=
  hd EmptyString (Str.split "." filepath).

(** [get_extension]: the text between the first and the second dot;
    [IndexError] when there is no dot. *)
Definition get_extension (filepath : string) : option string :=
  Str.split "." filepath !! 1.

(** [os.path.basename]: the text after the last slash. *)
Definition basename (filepath : string) : string :=
  List.last (Str.split "/" filepath) EmptyString.

(** [os.path.join] of two components. *)
Definition path_join (a b : string) : string :=
  if String.prefix "/" b then b
  else if String.eqb a "" then b
  else if String.eqb (List.last (Str.split "/" a) EmptyString) "" then a +:+ b
  else a +:+ "/" +:+ b.

(** [_TPA_get_file_prefix] *)
Definition _TPA_get_file_prefix (filepath : string) : string :=
  let name := remove_extension (basename filepath) in
  hd EmptyString (Str.split "ID" name).

(** [TPA_Sample_from_filepaths._read_ID] *)
Definition _read_ID (filepath : string) : string :=
  let fn := basename filepath in
  let name := remove_extension fn in
  List.last (Str.split "ID" name) EmptyString.

(** [TPA_Sample_from_data.make_filepaths] *)
Definition make_filepaths (self : TPA_Sample_from_data)
    (parent_dir prefix extension : string) : TPA_Sample_from_data :=
  {| filepaths :=
       Some (map (fun id => path_join parent_dir
                              (prefix +:+ "ID" +:+ id +:+ "." +:+ extension))
               (ids self));
     ids := ids self; arrays := arrays self; timestamps := timestamps self |}.

Definition ends_with_ID (s : string) : Prop := exists f, s = f +:+ "ID".

(** ** Python lists and dictionaries *)

Module Py.

(** [x in l] *)
Definition list_mem (x : string) (l : list string) : bool :=
  existsb (String.eqb x) l.

(** [l.remove(x)]: the first occurrence goes; [ValueError] when there is
    none. *)
Fixpoint list_remove (x : string) (l : list string) : option (list string) :=
  match l with
  | [] => None
  | y :: l' =>
      if String.eqb x y then Some l' else cons y <$> list_remove x l'
  end.

(** [collections.Counter(l)[x]] *)
Definition count (x : string) (l : list string) : nat :=
  length (List.filter (String.eqb x) l).

(** [collections.Counter(l).keys()]: the distinct elements, in the order of
    their first occurrence. *)
Fixpoint counter_keys (l : list string) : list string :=
  match l with
  | [] => []
  | x :: l' => x :: List.filter (fun y => negb (String.eqb x y)) (counter_keys l')
  end.

(** [len(set(l))] *)
Definition count_distinct (l : list string) : nat := length (counter_keys l).

(** The loop [for x in l: if cond(x): l.remove(x)] on the list it iterates
    over.  The list iterator holds a position [i]; each turn reads [l[i]]
    of the list as it is then, and stops once [i] is past the end.  [cond]
    may raise.  The list never grows, so [length l] turns are enough. *)
Fixpoint for_remove (cond : string -> option bool) (fuel i : nat)
    (l : list string) : option (list string) :=
  match fuel with
  | O => Some l
  | S fuel' =>
      match l !! i with
      | None => Some l
      | Some x =>
          c ← cond x;
          if c : bool
          then l' ← list_remove x l; for_remove cond fuel' (S i) l'
          else for_remove cond fuel' (S i) l
      end
  end.

Definition for_each_remove (cond : string -> option bool) (l : list string)
  : option (list string) :=
  for_remove cond (length l) 0 l.

End Py.

(** ** JSON documents *)

#[local] Unset Elimination Schemes.
Inductive json :=
| JInt (z : Z)
| JStr (s : string)
| JFloat (q : Q)
| JBool (b : bool)
| JNull
| JList (l : list json)
| JObj (d : list (string * json)).
#[local] Set Elimination Schemes.

(** A JSON object read by [json.load]: a dict in insertion order. *)
Definition dict := list (string * json).

Module Dict.

(** [d[k]]: [KeyError] when [k] is absent. *)
Fixpoint get (d : dict) (k : string) : option json :=
  match d with
  | [] => None
  | (k', v) :: d' => if String.eqb k k' then Some v else get d' k
  end.

(** [k in d] *)
Definition mem (d : dict) (k : string) : bool :=
  match get d k with Some _ => true | None => false end.

(** [d.pop(k)]: [KeyError] when [k] is absent. *)
Fixpoint pop (d : dict) (k : string) : option (json * dict) :=
  match d with
  | [] => None
  | (k', v) :: d' =>
      if String.eqb k k' then Some (v, d')
      else '(x, d'') ← pop d' k; Some (x, (k', v) :: d'')
  end.

(** [d[k] = v]: the value is replaced where [k] is, a new key goes last. *)
Fixpoint set (d : dict) (k : string) (v : json) : dict :=
  match d with
  | [] => [(k, v)]
  | (k', v') :: d' =>
      if String.eqb k k' then (k', v) :: d' else (k', v') :: set d' k v
  end.

End Dict.

(** [not v] is false on a true value: Python's truth value of a JSON value. *)
Definition truthy (v : json) : bool :=
  match v with
  | JInt z => negb (Z.eqb z 0)
  | JStr s => negb (String.eqb s "")
  | JFloat q => negb (Qeq_bool q 0)
  | JBool b => b
  | JNull => false
  | JList l => match l with [] => false | _ => true end
  | JObj d => match d with [] => false | _ => true end
  end.

(** [type(v) == int]; a JSON boolean is a [bool], not an [int]. *)
Definition type_is_int (v : json) : bool :=
  match v with JInt _ => true | _ => false end.

(** ** The file system and the outcome of a call *)

(** A file holds raw bytes or a JSON document. *)
Inductive content :=
| Raw (bytes : string)
| Json (doc : json).

Record world := {
  files : gmap string content;
  dirs : gset string
}.

(** What the operating system answers: [glob.glob] on a pattern, and the
    order in which [list(set(l))] enumerates the distinct elements of [l]. *)
Record Env := {
  glob : world -> string -> list string;
  list_of_set : list string -> list string
}.

(** A call returns a value or raises. *)
Inductive result (A : Type) :=
| Return (a : A)
| Raise (exn : string).
Arguments Return {A} a.
Arguments Raise {A} exn.

Definition of_option {A} (exn : string) (o : option A) : result A :=
  match o with Some a => Return a | None => Raise exn end.

Definition bind {A B} (r : result A) (k : A -> result B) : result B :=
  match r with Return a => k a | Raise e => Raise e end.

(** [ensure_path_exists] *)
Definition ensure_path_exists (path : string) (w : world) : world :=
  if decide (path ∈ dirs w) then w
  else {| files := files w; dirs := {[path]} ∪ dirs w |}.

(** [shutil.copy2(src, dst)]: [FileNotFoundError] without a source. *)
Definition copy2 (src dst : string) (w : world) : result world :=
  match files w !! src with
  | Some c => Return {| files := <[dst := c]> (files w); dirs := dirs w |}
  | None => Raise "FileNotFoundError"
  end.

(** ** File managers *)

Definition TPA_NFO_FN : string := "tpa.nfo".
Definition PROCESSED_OK_KEY : string := "ALIGNED".
Definition MADE_OK_KEY : string := "DATASET_PREPARED".

(** The loop of [_remove_missing_views] over the keys of the counter. *)
Fixpoint remove_missing_loop (prefixes : list string) (view_number : nat)
    (keys : list string) (prefixes2filter : list string)
  : option (list string) :=
  match keys with
  | [] => Some prefixes2filter
  | prefix :: keys' =>
      let prefix_view_number := Py.count prefix prefixes in
      if Nat.ltb prefix_view_number view_number
      then prefixes2filter' ← Py.list_remove prefix prefixes2filter;
           remove_missing_loop prefixes view_number keys' prefixes2filter'
      else remove_missing_loop prefixes view_number keys' prefixes2filter
  end.

(** [_TPA_File_Manager._remove_missing_views]; [view_IDs] is the attribute of
    the manager, [None] the [ValueError] of [list.remove].  Logging is off
    ([VERBOSE = False]) and left out. *)
Definition _remove_missing_views (view_IDs : list string)
    (prefixes prefixes2filter : list string) : option (list string) :=
  let view_number := length view_IDs in
  remove_missing_loop prefixes view_number (Py.counter_keys prefixes)
    prefixes2filter.

(** The attributes of a configured [TPA_Dataset_Maker]. *)
Record TPA_Dataset_Maker := {
  configured : bool;
  dataset_destination_dir : string;
  view_IDs : list string;
  processed_input_dir : string;
  labels_filepath : string;
  tpas_extension : string
}.

(** One turn of the loop of [_read_labels_file]. *)
Definition rename_key (data : dict) (key : string) : option dict :=
  if Nat.ltb 1 (length (Str.split "ID" key)) then
    let old_key := key in
    let new_key := hd EmptyString (Str.split "ID" key) in
    '(v, data') ← Dict.pop data old_key;
    Some (Dict.set data' new_key v)
  else Some data.

(** The dict iterator raises [RuntimeError] at its next step when the dict
    has changed size, which happens when the new key was already there. *)
Fixpoint rename_keys (keys : list string) (data : dict) : option dict :=
  match keys with
  | [] => Some data
  | key :: keys' =>
      data' ← rename_key data key;
      if Nat.eqb (length data') (length data) then rename_keys keys' data'
      else None
  end.

(** [TPA_Dataset_Maker._read_labels_file].  The loop runs over the keys the
    dict has when it starts; a renamed key goes to the end of the dict and
    contains no ["ID"], so that reaching it again changes nothing.  This is
    CPython up to 3.7; from 3.8 on the iterator also raises when it finds
    such an added key. *)
Definition _read_labels_file (w : world) (json_filepath : string)
  : result dict :=
  match files w !! json_filepath with
  | Some (Json (JObj data)) =>
      of_option "RuntimeError" (rename_keys (map fst data) data)
  | Some _ => Raise "JSONDecodeError"
  | None => Raise "FileNotFoundError"
  end.

(** The three label loops of [make] (lines 901-915): each iterates over
    [prefixes2make] and removes from it. *)
Definition filter_labels (_labels : dict) (prefixes2make : list string)
  : option (list string) :=
  l1 ← Py.for_each_remove
         (fun prefix => Some (negb (Dict.mem _labels prefix))) prefixes2make;
  l2 ← Py.for_each_remove
         (fun prefix => v ← Dict.get _labels prefix; Some (negb (truthy v))) l1;
  Py.for_each_remove
    (fun prefix => v ← Dict.get _labels prefix; Some (negb (type_is_int v))) l2.

(** The candidates of [make]: the prefixes found in the processed directory
    and what the completeness and label filters leave of them, with the
    number of prefixes before filtering. *)
Definition make_candidates (E : Env) (self : TPA_Dataset_Maker) (w : world)
  : result (list string * nat) :=
  let glob_patterns :=
    map (fun id => path_join (processed_input_dir self)
                     ("*ID" +:+ id +:+ "." +:+ tpas_extension self))
      (view_IDs self) in
  let files := concat (map (glob E w) glob_patterns) in
  let prefixes := map _TPA_get_file_prefix files in
  let prefixes2make := list_of_set E prefixes in
  let prefixes2make_number0 := length prefixes2make in
  bind (of_option "ValueError"
          (_remove_missing_views (view_IDs self) prefixes prefixes2make))
    (fun prefixes2make =>
  bind (_read_labels_file w (labels_filepath self)) (fun _labels =>
  bind (of_option "KeyError" (filter_labels _labels prefixes2make))
    (fun prefixes2make =>
  Return (prefixes2make, prefixes2make_number0)))).

(** The source and destination paths of one prefix. *)
Definition view_paths (self : TPA_Dataset_Maker) (dir prefix : string)
  : list string :=
  let fp_prefix := path_join dir prefix in
  map (fun view_id => fp_prefix +:+ "ID" +:+ view_id +:+ "."
                      +:+ tpas_extension self) (view_IDs self).

(** The copy loop of [make]; the files copied before a failing copy stay. *)
Fixpoint copy_all (pairs : list (string * string)) (w : world)
  : result bool * world :=
  match pairs with
  | [] => (Return true, w)
  | (src, dst) :: pairs' =>
      match copy2 src dst w with
      | Return w' => copy_all pairs' w'
      | Raise e => (Raise e, w)
      end
  end.

(** [TPA_Dataset_Maker._write_nfo] *)
Definition _write_nfo (self : TPA_Dataset_Maker) (w : world) : world :=
  let filepath := path_join (dataset_destination_dir self) TPA_NFO_FN in
  {| files := <[filepath := Json (JObj [(MADE_OK_KEY, JInt 1)])]> (files w);
     dirs := dirs w |}.

(** [TPA_Dataset_Maker._copy_labels_file] *)
Definition _copy_labels_file (self : TPA_Dataset_Maker) (w : world)
  : result world :=
  let src := labels_filepath self in
  let dst := path_join (dataset_destination_dir self) "labels.json" in
  copy2 src dst w.

(** [TPA_Dataset_Maker.make]: the value returned or the exception raised,
    and the file system the call leaves. *)
Definition make (E : Env) (self : TPA_Dataset_Maker) (w : world)
  : result bool * world :=
  if negb (configured self) then (Raise "Configure with config() first", w)
  else
    let w := ensure_path_exists (dataset_destination_dir self) w in
    match make_candidates E self w with
    | Raise e => (Raise e, w)
    | Return (prefixes2make, prefixes2make_number0) =>
        let fps2copy :=
          map (view_paths self (processed_input_dir self)) prefixes2make in
        let fps2output :=
          map (view_paths self (dataset_destination_dir self)) prefixes2make in
        let prefixes2make_number := Py.count_distinct prefixes2make in
        let prefixes_ignored :=
          (Z.of_nat prefixes2make_number0 - Z.of_nat prefixes2make_number)%Z in
        if Z.eqb prefixes_ignored (Z.of_nat prefixes2make_number0)
        then (Return false, w)
        else
          let pairs :=
            concat (map (fun '(src_tuple, dst_tuple) => zip src_tuple dst_tuple)
                      (zip fps2copy fps2output)) in
          match copy_all pairs w with
          | (Return _, w) =>
              let w := _write_nfo self w in
              match _copy_labels_file self w with
              | Return w => (Return true, w)
              | Raise e => (Raise e, w)
              end
          | (Raise e, w) => (Raise e, w)
          end
    end.

(** ** A small operating system for the examples *)

Definition ends_with (suffix s : string) : bool :=
  String.prefix (String.rev suffix) (String.rev s).

(** A pattern [dir/*rest] matches the paths [dir/xrest] in which [x]
    contains no slash. *)
Definition glob_match (pattern path : string) : bool :=
  match Str.split "*" pattern with
  | [pre; suf] =>
      String.prefix pre path && ends_with suf path
      && Nat.leb (String.length pre + String.length suf) (String.length path)
      && Nat.eqb
           (length (Str.split "/"
              (String.substring (String.length pre)
                 (String.length path - String.length pre - String.length suf)
                 path))) 1
  | _ => String.eqb pattern path
  end.

Definition simple_env : Env :=
  {| glob := fun w pattern =>
       List.filter (glob_match pattern) (map fst (map_to_list (files w)));
     list_of_set := Py.counter_keys |}.

Definition maker : TPA_Dataset_Maker :=
  {| configured := true;
     dataset_destination_dir := "dataset";
     view_IDs := ["0"; "1"];
     processed_input_dir := "processed";
     labels_filepath := "processed/labels.json";
     tpas_extension := "txt" |}.

(** A processed directory with the two views of the prefixes [a] and [b]. *)
Definition processed (labels : dict) : world :=
  {| files :=
       list_to_map
         [("processed/aID0.txt", Raw "a0"); ("processed/aID1.txt", Raw "a1");
          ("processed/bID0.txt", Raw "b0"); ("processed/bID1.txt", Raw "b1");
          ("processed/tpa.nfo", Json (JObj [(PROCESSED_OK_KEY, JInt 1)]));
          ("processed/labels.json", Json (JObj labels))]%string;
     dirs := {["processed"%string]} |}.

(** The labels of the spec's example, as written in the labels file. *)
Definition spec_labels : dict :=
  [("p1", JInt 2); ("p2", JStr ""); ("p3", JStr "x"); ("p4ID0", JInt 5)]%string.

(** ** Objects, references and the constructor of a data-backed sample *)

Definition loc := positive.

(** A Python value: an immediate one or a reference to a mutable object. *)
Inductive value :=
| VNone
| VFloat (q : Q)
| VStr (s : string)
| VRef (l : loc).

(** A mutable object: a list of values or a NumPy array of frames. *)
Inductive object :=
| OList (items : list value)
| OArray (data : list frame).

Definition alloc (o : object) (h : gmap loc object) : loc * gmap loc object :=
  let l := fresh (dom h) in (l, <[l := o]> h).

(** [x.copy()]: a new object with the content of [x]; the items of a list
    are not copied, the new list refers to the same objects.  Immediate
    values have no such method. *)
Definition copy (x : value) (h : gmap loc object)
  : option (value * gmap loc object) :=
  match x with
  | VRef l => o ← h !! l; let '(l', h') := alloc o h in Some (VRef l', h')
  | _ => None
  end.

(** Truth value of an argument. *)
Definition value_truthy (h : gmap loc object) (v : value) : bool :=
  match v with
  | VNone => false
  | VFloat q => negb (Qeq_bool q 0)
  | VStr s => negb (String.eqb s "")
  | VRef l =>
      match h !! l with
      | Some (OList []) | Some (OArray []) => false
      | _ => true
      end
  end.

(** The attributes of a [TPA_Sample_from_data] object. *)
Record sample_object := {
  o_filepaths : value;
  o_ids : value;
  o_arrays : value;
  o_timestamps : value
}.

(** [TPA_Sample_from_data.__init__] *)
Definition __init__ (arrays timestamps ids output_filepaths : value)
    (h : gmap loc object) : option (sample_object * gmap loc object) :=
  '(self_ids, h) ← copy ids h;
  '(self_arrays, h) ← copy arrays h;
  '(self_timestamps, h) ← copy timestamps h;
  Some ({| o_filepaths := if value_truthy h output_filepaths
                          then output_filepaths else VNone;
           o_ids := self_ids; o_arrays := self_arrays;
           o_timestamps := self_timestamps |}, h).

(** What one sees of an item: the value itself, or the object it refers to. *)
Inductive seen :=
| SVal (v : value)
| SObj (o : object)
| SDangling.

Definition look (h : gmap loc object) (v : value) : seen :=
  match v with
  | VRef l => match h !! l with Some o => SObj o | None => SDangling end
  | _ => SVal v
  end.

(** The items of the list at [l]. *)
Definition items_at (h : gmap loc object) (l : loc) : list value :=
  match h !! l with Some (OList items) => items | _ => [] end.

(** The content of a list attribute, two levels deep: the list and the
    objects its items refer to. *)
Definition contents (h : gmap loc object) (v : value) : option (list seen) :=
  match v with
  | VRef l =>
      match h !! l with
      | Some (OList items) => Some (map (look h) items)
      | _ => None
      end
  | _ => None
  end.

(** The arrays, timestamps and ids stored in a sample. *)
Definition stored (h : gmap loc object) (s : sample_object)
  : option (list seen) * option (list seen) * option (list seen) :=
  (contents h (o_arrays s), contents h (o_timestamps s), contents h (o_ids s)).

(** A caller holding one array, one timestamp list and one id. *)
Definition caller_heap : gmap loc object :=
  list_to_map
    [(1%positive, OArray [ [[20]]; [[21]] ]%Q);
     (2%positive, OList [VRef 1%positive]);
     (3%positive, OList [VFloat 10.5; VFloat 11]%Q);
     (4%positive, OList [VRef 3%positive]);
     (5%positive, OList [VStr "0"])].

(** ** The txt codec *)

(** How Python writes and reads a float: [str.format] in [write_np2txt],
    [float] in [txt2np]. *)
Record FloatText := {
  str_float : Q -> string;
  float_of_str : string -> option Q
}.

Module Txt.

Definition newline : ascii := "010"%char.
Definition nl : string := String newline EmptyString.

(** The decimal digits of a natural number. *)
Definition digits (n : Z) : string :=
  NilEmpty.string_of_uint (N.to_uint (Z.to_N n)).

Definition two_digits (n : Z) : string :=
  if Z.ltb n 10 then "0" +:+ digits n else digits n.

(** Rounding to the nearest integer, ties to the even one. *)
Definition round_half_even (q : Q) : Z :=
  let f := Qfloor q in
  let r := (q - inject_Z f)%Q in
  if Np.Qltb r (1 # 2) then f
  else if Np.Qltb (1 # 2) r then (f + 1)%Z
  else if Z.even f then f else (f + 1)%Z.

(** The text of a number of hundredths [c >= 0] with its sign. *)
Definition format_centi (negative : bool) (c : Z) : string :=
  (if negative then "-" else "") +:+ digits (c / 100) +:+ "."
  +:+ two_digits (c mod 100).

(** ["%02.2f" % val]: two decimals, correctly rounded; the minimal width 2
    is always exceeded. *)
Definition format_02_2f (val : Q) : string :=
  format_centi (Np.Qltb val 0) (round_half_even (Qabs val * 100)).

(** [s.replace(old, new)] *)
Definition replace (old new s : string) : string :=
  Str.join new (Str.split old s).

(** The field of one temperature in [write_np2txt]. *)
Definition field (val : Q) : string :=
  String.substring 0 4 (replace "." "" (format_02_2f val)) +:+ " ".

Definition digit_value (c : ascii) : option Z :=
  let n := nat_of_ascii c in
  if Nat.leb 48 n && Nat.leb n 57 then Some (Z.of_nat (n - 48)) else None.

Fixpoint parse_digits (acc : Z) (s : string) : option Z :=
  match s with
  | EmptyString => Some acc
  | String c r => d ← digit_value c; parse_digits (10 * acc + d) r
  end.

(** [int(T)] on an optional sign followed by decimal digits; any other
    text is taken to raise [ValueError] (Python also accepts blanks around
    the number and underscores between digits, which no field contains). *)
Definition parse_int (T : string) : option Z :=
  match T with
  | EmptyString => None
  | String c r =>
      if Ascii.eqb c "-" then
        match r with
        | EmptyString => None
        | _ => Z.opp <$> parse_digits 0 r
        end
      else if Ascii.eqb c "+" then
        match r with
        | EmptyString => None
        | _ => parse_digits 0 r
        end
      else parse_digits 0 T
  end.

(** ** Two-dimensional arrays as lists of rows *)

Definition width (m : list (list Q)) : nat :=
  match m with [] => 0 | r :: _ => length r end.

(** Swapping the two axes. *)
Definition transpose (m : list (list Q)) : list (list Q) :=
  map (fun j => map (fun r => nth j r 0%Q) m) (seq 0 (width m)).

(** [np.rot90(array, k=1, axes=(1, 2))] on one frame:
    [transpose(flip(m, 2))], the flip reversing every row. *)
Definition rot90 (m : list (list Q)) : list (list Q) :=
  transpose (map (@rev Q) m).

(** [np.rot90(array, k=-1, axes=(1, 2))] on one frame:
    [flip(transpose(m), 2)]. *)
Definition rot90_back (m : list (list Q)) : list (list Q) :=
  map (@rev Q) (transpose m).

(** [m.flatten("F")]: column after column. *)
Definition flatten_F (m : list (list Q)) : list Q := concat (transpose m).

(** [count] consecutive pieces of [size] elements. *)
Fixpoint chunks (size count : nat) (l : list Q) : list (list Q) :=
  match count with
  | O => []
  | S count' => take size l :: chunks size count' (drop size l)
  end.

(** [a.reshape([n, n], order="F")] of a flat array: its consecutive pieces
    of [n] elements are the columns; [ValueError] on another size. *)
Definition reshape_F (n : nat) (flat : list Q) : option (list (list Q)) :=
  if Nat.eqb (length flat) (n * n) then Some (transpose (chunks n n flat))
  else None.

(** ** Writing and reading *)

(** Strings written one after the other. *)
Definition cat (l : list string) : string :=
  fold_right String.append EmptyString l.

(** No character of [s] is [a]. *)
Fixpoint free_of (a : ascii) (s : string) : bool :=
  match s with
  | EmptyString => true
  | String c r => negb (Ascii.eqb a c) && free_of a r
  end.

(** The line of one frame and its timestamp in [write_np2txt]. *)
Definition write_line (F : FloatText) (step : list (list Q)) (t : Q) : string :=
  let line := cat (map field (flatten_F step)) in
  line +:+ "t: " +:+ str_float F t +:+ nl.

(** [write_np2txt]: the text written to the file. *)
Definition write_np2txt (F : FloatText) (array : list frame)
    (timestamps : list Q) : string :=
  let frames := map rot90 array in
  "HTPA32x32d" +:+ nl
  +:+ cat (map (fun '(step, t) => write_line F step t) (zip frames timestamps)).

(** The lines [f.readline()] returns one after the other, each with its
    newline, until the end of the file. *)
Definition readlines (text : string) : list string :=
  let pieces := Str.split nl text in
  map (fun p => p +:+ nl) (removelast pieces)
  ++ (if String.eqb (List.last pieces EmptyString) "" then []
      else [List.last pieces EmptyString]).

(** One turn of the loop of [txt2np]. *)
Definition read_line (F : FloatText) (array_size : nat) (line : string)
  : option (list (list Q) * Q) :=
  let split := Str.split " " line in
  let frame := take (array_size ^ 2) split in
  let timestamp := List.last split EmptyString in
  frame ← mapM parse_int frame;
  frame ← reshape_F array_size (map inject_Z frame);
  let frame := map (map (fun v => v * (1 # 100))%Q) frame in
  timestamp ← float_of_str F timestamp;
  Some (frame, timestamp).

(** [txt2np]; [np.rot90] with [axes=(1, 2)] raises on the one-dimensional
    array that [np.array([])] is when the file holds no frame. *)
Definition txt2np (F : FloatText) (array_size : nat) (text : string)
  : option (list frame * list Q) :=
  let lines := tl (readlines text) in
  rows ← mapM (read_line F array_size) lines;
  let frames := map fst rows in
  let timestamps := map snd rows in
  match frames with
  | [] => None
  | _ => Some (map rot90_back frames, timestamps)
  end.

End Txt.

(** A float text for the examples: numerator and denominator in decimal. *)
Definition fraction_text : FloatText :=
  {| str_float := fun q =>
       (if Z.ltb (Qnum q) 0 then "-" else "")
       +:+ Txt.digits (Z.abs (Qnum q)) +:+ "/" +:+ Txt.digits (Z.pos (Qden q));
     float_of_str := fun s =>
       match Str.split "/" (hd EmptyString (Str.split Txt.nl s)) with
       | [n; d] =>
           n ← Txt.parse_int n; d ← Txt.parse_int d;
           match d with
           | Z.pos p => Some (n # p)
           | _ => None
           end
       | _ => None
       end |}.

(** The integer that [txt2np] reads for a temperature written by
    [write_np2txt] when its field is not cut: the temperature in
    hundredths, rounded. *)
Definition quantize (val : Q) : Z :=
  let c := Txt.round_half_even (Qabs val * 100) in
  if Np.Qltb val 0 then (- c)%Z else c.

(** The field of a temperature of [c] hundredths, without the blank. *)
Definition word (negative : bool) (c : Z) : string :=
  String.substring 0 4 (Txt.replace "." "" (Txt.format_centi negative c)).

(** The field holds neither a blank nor a newline and reads back as the
    number of hundredths. *)
Definition word_ok (negative : bool) (c : Z) : bool :=
  Txt.free_of " " (word negative c)
  && Txt.free_of Txt.newline (word negative c)
  && match Txt.parse_int (word negative c) with
     | Some z => Z.eqb z (if negative then - c else c)
     | None => false
     end.

(** A sequence of [n] by [n] frames. *)
Definition square (n : nat) (m : list (list Q)) : Prop :=
  length m = n /\ Forall (fun r => length r = n) m.

(** Python reads the text of [t] back as [t], and the text holds neither a
    blank nor a newline. *)
Definition float_text_ok (F : FloatText) (t : Q) : Prop :=
  float_of_str F (str_float F t +:+ Txt.nl) = Some t
  /\ Txt.free_of " " (str_float F t) = true
  /\ Txt.free_of Txt.newline (str_float F t) = true.

(** The field of a temperature, without the blank that ends it. *)
Definition word_of (val : Q) : string :=
  word (Np.Qltb val 0) (Txt.round_half_even (Qabs val * 100)).

(** The temperature read back from the field of [val]. *)
Definition read_back (val : Q) : Q := (inject_Z (quantize val) * (1 # 100))%Q.

(** The temperatures that fit the four characters of a field. *)
Definition in_txt_range (val : Q) : Prop :=
  (-9.99 <= val)%Q /\ (val <= 99.99)%Q.

(** A line of [write_np2txt] without its newline. *)
Definition line_body (F : FloatText) (step : list (list Q)) (t : Q) : string :=
  Txt.cat (map Txt.field (Txt.flatten_F step)) +:+ "t: " +:+ str_float F t.


(** One frame of 32 by 32 temperatures of 36.6 degrees. *)
Definition warm_array : list frame := [repeat (repeat 36.6%Q 32) 32].

(** ** Statements and examples *)

(** A position [k] of [ts] is the nearest neighbour of [t] when the
    timestamp there is at least as close to [t] as every timestamp of [ts],
    and strictly closer than every earlier one. *)
Definition nearest_first (ts : list Q) (t : Q) (k : nat) : Prop :=
  exists u, ts !! k = Some u
    /\ (forall p y, ts !! p = Some y -> (Qabs (t - u) <= Qabs (t - y))%Q)
    /\ (forall p y, p < k -> ts !! p = Some y -> (Qabs (t - u) < Qabs (t - y))%Q).

(** The example of the docstring of [match_timesteps]. *)
Definition ts1 : list Q := [1; 2; 3; 4; 5]%Q.
Definition ts2 : list Q := [1.1; 2.1; 2.9; 3.6; 5.1; 6; 6.1]%Q.
Definition ts3 : list Q := [0.9; 1.2; 2; 3; 4.1; 4.2; 4.3; 4.9]%Q.

(** ** Frame durations and resampling *)

(** [timestamps2frame_durations]; a duration of 0 counts as not given, and
    [frame_durations[-1]] raises [IndexError] when there is no difference
    to repeat. *)
Definition timestamps2frame_durations (timestamps : list Q)
    (last_frame_duration : option Q) : option (list Q) :=
  let frame_durations :=
    map (fun '(x_t1, x_t2) => (x_t2 - x_t1)%Q) (zip timestamps (tl timestamps)) in
  last_frame_duration ←
    match last_frame_duration with
    | Some d => if Qeq_bool d 0 then last frame_durations else Some d
    | None => last frame_durations
    end;
  Some (frame_durations ++ [last_frame_duration]).


(** The positions of [range(0, stop, step)]; none for a negative step. *)
Definition range0 (stop : nat) (step : Z) : list nat :=
  if Z.ltb 0 step
  then map (fun i => i * Z.to_nat step)
         (seq 0 ((stop + Z.to_nat step - 1) / Z.to_nat step))
  else [].

(** [resample_np_tuples]; a step of 0 or an empty list of indices counts as
    not given; [ValueError] when there are not as many index lists as
    arrays, [IndexError] on a position out of range. *)
Definition resample_np_tuples {A} (arrays : list (list A))
    (indices : option (list (list nat))) (step : option Z)
  : option (list (list A)) :=
  let by_indices :=
    match indices with
    | Some ((_ :: _) as indices) =>
        if Nat.eqb (length arrays) (length indices)
        then mapM (fun '(array, ids) => Np.take_indices array ids)
               (zip arrays indices)
        else None
    | _ => Some arrays
    end in
  match step with
  | Some step =>
      if Z.eqb step 0 then by_indices
      else mapM (fun array => Np.take_indices array (range0 (length array) step))
             arrays
  | None => by_indices
  end.

(** [resample_timestamps] *)
Definition resample_timestamps (timestamps : list (list Q))
    (indices : option (list (list nat))) (step : option Z)
  : option (list (list Q)) :=
  resample_np_tuples timestamps indices step.

(** ** Arrays with their shape *)

(** A three-dimensional array shaped [frames, height, width]: the two last
    dimensions of its shape and its frames, each a list of rows.  The shape
    is kept beside the data because an array without frames, or with frames
    without rows, still has one. *)
Record array3 := {
  a_height : nat;
  a_width : nat;
  a_frames : list frame
}.

(** A two-dimensional array shaped [frames, elements]. *)
Record array2 := {
  a_elements : nat;
  a_rows : list (list Q)
}.

(** The data agree with the shape. *)
Definition array3_wf (a : array3) : Prop :=
  Forall (fun f => length f = a_height a
                   /\ Forall (fun r => length r = a_width a) f) (a_frames a).

(** The elements of an array in memory order. *)
Definition ravel3 (a : array3) : list Q := concat (map (@concat Q) (a_frames a)).
Definition ravel2 (a : array2) : list Q := concat (a_rows a).

(** The dimension that [reshape] computes for [-1] from the number of
    elements and the product of the other dimensions; [ValueError] when
    that product is zero or does not divide the number of elements. *)
Definition infer_dimension (size known : nat) : option nat :=
  if Nat.eqb known 0 || negb (Nat.eqb (size mod known) 0) then None
  else Some (size / known).

(** [flatten_frames] *)
Definition flatten_frames (array : array3) : option array2 :=
  let height := a_height array in
  let width := a_width array in
  n ← infer_dimension (length (ravel3 array)) (height * width);
  Some {| a_elements := height * width;
          a_rows := Txt.chunks (height * width) n (ravel3 array) |}.

(** [reshape_flattened_frames]; [int(elements ** (1 / 2))] is the integer
    square root for the sizes a frame can have. *)
Definition reshape_flattened_frames (array : array2) : option array3 :=
  let elements := a_elements array in
  let height := Nat.sqrt elements in
  let width := height in
  n ← infer_dimension (length (ravel2 array)) (height * width);
  Some {| a_height := height; a_width := width;
          a_frames := map (Txt.chunks width height)
                        (Txt.chunks (height * width) n (ravel2 array)) |}.

(** The position that a slice bound denotes in a sequence of [len]
    elements: a negative bound counts from the end, and every bound is
    clipped to the sequence. *)
Definition slice_bound (len : nat) (i : Z) : nat :=
  if Z.ltb i 0 then Z.to_nat (Z.max (i + Z.of_nat len) 0)
  else Nat.min (Z.to_nat i) len.

(** [l[start:stop]] *)
Definition py_slice {A} (l : list A) (start stop : Z) : list A :=
  let s := slice_bound (length l) start in
  let e := slice_bound (length l) stop in
  take (e - s) (drop s l).

(** [crop_center] *)
Definition crop_center (array : array3) (crop_height crop_width : Z) : array3 :=
  let height := Z.of_nat (a_height array) in
  let width := Z.of_nat (a_width array) in
  let crop_height := if Z.eqb crop_height (-1) then height else crop_height in
  let start_y := (height / 2 - crop_height / 2)%Z in
  let crop_width := if Z.eqb crop_width (-1) then width else crop_width in
  let start_x := (width / 2 - crop_width / 2)%Z in
  {| a_height :=
       length (py_slice (seq 0 (a_height array)) start_y (start_y + crop_height));
     a_width :=
       length (py_slice (seq 0 (a_width array)) start_x (start_x + crop_width));
     a_frames :=
       map (fun f =>
              map (fun r => py_slice r start_x (start_x + crop_width))
                (py_slice f start_y (start_y + crop_height)))
         (a_frames array) |}.

(** The element of frame [k] at row [i] and column [j]. *)
Definition element (a : array3) (k i j : nat) : option Q :=
  f ← a_frames a !! k; r ← f !! i; r !! j.

(** Two frames of three rows and four columns. *)
Definition frames_3x4 : array3 :=
  {| a_height := 3; a_width := 4;
     a_frames := [ [ [1; 2; 3; 4]; [5; 6; 7; 8]; [9; 10; 11; 12] ];
                   [ [13; 14; 15; 16]; [17; 18; 19; 20]; [21; 22; 23; 24] ] ]%Q |}.

(** Two frames of two rows and two columns. *)
Definition frames_2x2 : array3 :=
  {| a_height := 2; a_width := 2;
     a_frames := [ [ [1; 2]; [3; 4] ]; [ [5; 6]; [7; 8] ] ]%Q |}.

(** ** Synchronization of the views *)

(** [itertools.combinations(l, 2)]: every element with each later one. *)
Fixpoint combinations2 {A} (l : list A) : list (A * A) :=
  match l with
  | [] => []
  | x :: r => map (pair x) r ++ combinations2 r
  end.

(** [np.array(a) - np.array(b)] on two lists of numbers: element by
    element; an array of one element is stretched to the length of the
    other one, and any other two lengths that differ raise [ValueError]. *)
Definition np_subtract (a b : list Q) : option (list Q) :=
  if Nat.eqb (length a) (length b) then Some (zip_with Qminus a b)
  else match a, b with
       | [x], _ => Some (map (fun y => x - y)%Q b)
       | _, [y] => Some (map (fun x => x - y)%Q a)
       | _, _ => None
       end.

(** [a.max()]: raises [ValueError] on an empty array. *)
Definition np_max (l : list Q) : option Q :=
  match l with
  | [] => None
  | x :: l' => Some (fold_left (fun m y => if Np.Qltb m y then y else m) l' x)
  end.

(** The loop of [test_synchronization] over the pairs of views. *)
Fixpoint test_synchronization_loop (pairs : list (list Q * list Q))
    (max_error : Q) : option bool :=
  match pairs with
  | [] => Some true
  | pair_ :: pairs' =>
      d ← np_subtract pair_.1 pair_.2;
      m ← np_max (map Qabs d);
      if Np.Qltb max_error m then Some false
      else test_synchronization_loop pairs' max_error
  end.

(** [_TPA_Sample.test_synchronization]; [None] stands for an exception. *)
Definition test_synchronization (self : TPA_Sample_from_data) (max_error : Q)
  : option bool :=
  let pairs := combinations2 (timestamps self) in
  test_synchronization_loop pairs max_error.


(** ** Configuration files *)

(** The template that [_generate_config_template] dumps: every required
    key with an empty text, then the entries of a non-empty [fill_dict]. *)
Definition config_template (_json_required_keys : list string)
    (fill_dict : option dict) : dict :=
  let template :=
    fold_left (fun template key => Dict.set template key (JStr ""))
      _json_required_keys [] in
  match fill_dict with
  | Some fill_dict =>
      if truthy (JObj fill_dict)
      then fold_left (fun template '(key, v) => Dict.set template key v)
             fill_dict template
      else template
  | None => template
  end.

(** [_TPA_File_Manager._generate_config_template] *)
Definition _generate_config_template (_json_required_keys : list string)
    (output_json_filepath : string) (fill_dict : option dict) (w : world)
  : world :=
  let template := config_template _json_required_keys fill_dict in
  {| files := <[output_json_filepath := Json (JObj template)]> (files w);
     dirs := dirs w |}.

(** [_TPA_File_Manager._validate_config] on the loaded document [_json];
    [and] does not look [MAKE] up when [PREPARE] is false, and a
    [KeyError] of either lookup is passed over. *)
Definition _validate_config (_json_required_keys : list string) (_json : dict)
  : result bool :=
  let keys_missing :=
    List.filter (fun key => negb (Dict.mem _json key)) _json_required_keys in
  if negb (Nat.eqb (length keys_missing) 0) then Return false
  else
    match Dict.get _json "PREPARE" with
    | None => Return true
    | Some prepare =>
        if truthy prepare then
          match Dict.get _json "MAKE" with
          | None => Return true
          | Some make_flag =>
              if truthy make_flag
              then Raise "MAKE and PREPARE flags cannot be set at the same time to TRUE"
              else Return true
          end
        else Return true
    end.

(** [d.update(other)] *)
Definition dict_update (d other : dict) : dict :=
  fold_left (fun d '(key, v) => Dict.set d key v) other d.

Module Maker.

(** [TPA_Dataset_Maker._json_required_keys] *)
Definition _json_required_keys : list string :=
  ["dataset_destination_dir"; "view_IDs"; "processed_input_dir";
   "labels_filepath"; "tpas_extension"; "MAKE"; "PREPARE"].

(** [TPA_Dataset_Maker.generate_config_template] *)
Definition generate_config_template (output_json_filepath : string)
    (fill_dict : option dict) (w : world) : world :=
  let init_fill_dict := [("MAKE", JInt 1); ("PREPARE", JInt 0)]%string in
  let init_fill_dict :=
    match fill_dict with
    | Some fill_dict =>
        if truthy (JObj fill_dict) then dict_update init_fill_dict fill_dict
        else init_fill_dict
    | None => init_fill_dict
    end in
  _generate_config_template _json_required_keys output_json_filepath
    (Some init_fill_dict) w.

End Maker.

Module Preparer.

(** The attributes of a configured [TPA_Preparer]. *)
Record TPA_Preparer := {
  raw_input_dir : string;
  processed_destination_dir : string;
  view_IDs : list string;
  tpas_extension : string
}.

(** [TPA_Preparer._json_required_keys] *)
Definition _json_required_keys : list string :=
  ["raw_input_dir"; "processed_destination_dir"; "view_IDs";
   "tpas_extension"; "MAKE"; "PREPARE"].

(** [TPA_Preparer.generate_config_template] *)
Definition generate_config_template (output_json_filepath : string)
    (w : world) : world :=
  _generate_config_template _json_required_keys output_json_filepath
    (Some [("MAKE", JInt 0); ("PREPARE", JInt 1)]%string) w.

(** [TPA_Preparer._write_make_file] *)
Definition _write_make_file (self : TPA_Preparer) (w : world) : world :=
  let filepath := path_join (processed_destination_dir self) "make_config.json" in
  let fill_dict := [] in
  let fill_dict :=
    dict_update fill_dict [("view_IDs", JList (map JStr (view_IDs self)))]%string in
  let fill_dict :=
    dict_update fill_dict [("tpas_extension", JStr (tpas_extension self))]%string in
  let fill_dict :=
    dict_update fill_dict
      [("processed_input_dir", JStr (processed_destination_dir self))]%string in
  let fill_dict :=
    dict_update fill_dict
      [("labels_filepath",
        JStr (path_join (processed_destination_dir self) "labels.json"))]%string in
  let fill_dict := dict_update fill_dict [("MAKE", JInt 1)]%string in
  let fill_dict := dict_update fill_dict [("PREPARE", JInt 0)]%string in
  Maker.generate_config_template filepath (Some fill_dict) w.

End Preparer.

(** The two flags of a document are both set. *)
Definition both_flags (d : dict) : bool :=
  match Dict.get d "PREPARE", Dict.get d "MAKE" with
  | Some prepare, Some make_flag => truthy prepare && truthy make_flag
  | _, _ => false
  end.

(** ** The reader and the writer of a file *)

Definition READERS_EXTENSIONS_DICT : list (string * string) :=
  [("txt", "txt"); ("csv", "csv"); ("pickle", "pickle"); ("pkl", "pickle");
   ("p", "pickle")]%string.

Definition SUPPORTED_EXTENSIONS : list string := map fst READERS_EXTENSIONS_DICT.

(** [d[k]] in a dict from text to text. *)
Fixpoint dict_item (d : list (string * string)) (k : string) : option string :=
  match d with
  | [] => None
  | (k', v) :: d' => if String.eqb k k' then Some v else dict_item d' k
  end.

(** [c.lower()] for a character of a path, taken to be ASCII. *)
Definition lower_ascii (c : ascii) : ascii :=
  let n := nat_of_ascii c in
  if Nat.leb 65 n && Nat.leb n 90 then ascii_of_nat (n + 32) else c.

(** [s.lower()] *)
Fixpoint lower (s : string) : string :=
  match s with
  | EmptyString => EmptyString
  | String c r => String (lower_ascii c) (lower r)
  end.

(** The first three lines of [read_tpa_file] and of [write_tpa_file]: the
    name of the reader, or writer, that the extension selects. *)
Definition tpa_reader (filepath : string) : result string :=
  match get_extension filepath with
  | None => Raise "IndexError"
  | Some extension =>
      let extension_lowercase := lower extension in
      if Py.list_mem extension_lowercase SUPPORTED_EXTENSIONS
      then of_option "KeyError"
             (dict_item READERS_EXTENSIONS_DICT extension_lowercase)
      else Raise "AssertionError"
  end.

(** * Properties *)

(** ** Properties of [argmin] *)

Section ArgminSpec.
Context {A : Type} (ltb : A -> A -> bool) (lt : A -> A -> Prop).
Hypothesis ltb_lt : forall x y, ltb x y = true <-> lt x y.
Hypothesis lt_irrefl : forall x, ~ lt x x.
Hypothesis lt_trans : forall x y z, lt x y -> lt y z -> lt x z.
Hypothesis lt_negtrans : forall x y z, ~ lt x y -> ~ lt y z -> ~ lt x z.

Lemma ltb_dec x y : lt x y \/ ~ lt x y.
Proof using ltb_lt.
  destruct (ltb x y) eqn:E.
  - left. by apply ltb_lt.
  - right. intros H. apply ltb_lt in H. congruence.
Qed.

Lemma argmin_from_spec (l pre : list A) (best : A) (besti i : nat) :
  length pre = i ->
  pre !! besti = Some best ->
  (forall p y, pre !! p = Some y -> ~ lt y best) ->
  (forall p y, p < besti -> pre !! p = Some y -> lt best y) ->
  exists m, (pre ++ l) !! Np.argmin_from ltb best besti i l = Some m
    /\ (forall p y, (pre ++ l) !! p = Some y -> ~ lt y m)
    /\ (forall p y, p < Np.argmin_from ltb best besti i l ->
          (pre ++ l) !! p = Some y -> lt m y).
Proof using ltb_lt lt_irrefl lt_trans lt_negtrans.
  revert pre best besti i.
  induction l as [|x l IH]; intros pre best besti i Hi Hb Hmin Hfirst; simpl.
  - rewrite app_nil_r. eauto.
  - assert (Hlen : length (pre ++ [x]) = S i)
      by (rewrite length_app; simpl; lia).
    replace (pre ++ x :: l) with ((pre ++ [x]) ++ l)
      by (by rewrite <- app_assoc).
    assert (Hsnoc : forall p y, (pre ++ [x]) !! p = Some y ->
              (p < i /\ pre !! p = Some y) \/ (p = i /\ y = x)).
    { intros p y Hp. destruct (decide (p < i)) as [Hlt|Hge].
      - rewrite lookup_app_l in Hp by lia. auto.
      - rewrite lookup_app_r in Hp by lia.
        destruct (p - length pre) as [|n] eqn:En; simpl in Hp; [|done].
        injection Hp as <-. right. split; [lia|done]. }
    destruct (ltb x best) eqn:E.
    + apply ltb_lt in E. apply IH; [done| | |].
      * rewrite lookup_app_r by lia. by rewrite Hi, Nat.sub_diag.
      * intros p y Hp. destruct (Hsnoc p y Hp) as [[_ Hp']|[_ ->]].
        -- intros Hy. apply (Hmin p y Hp'). by apply (lt_trans y x best).
        -- apply lt_irrefl.
      * intros p y Hp Hy. rewrite lookup_app_l in Hy by lia.
        destruct (ltb_dec x y) as [|Hn]; [done|].
        exfalso. apply (lt_negtrans x y best Hn (Hmin p y Hy) E).
    + assert (Hn : ~ lt x best).
      { intros H. apply ltb_lt in H. congruence. }
      apply IH; [done| | |].
      * by apply lookup_app_l_Some.
      * intros p y Hp. destruct (Hsnoc p y Hp) as [[_ Hp']|[_ ->]]; eauto.
      * intros p y Hp Hy.
        assert (p < length pre) by (apply lookup_lt_Some in Hb; lia).
        rewrite lookup_app_l in Hy by done. eauto.
Qed.

(** On a non-empty list [argmin] returns the position of the first
    smallest element. *)
Lemma argmin_spec (l : list A) :
  l <> [] ->
  exists k m, Np.argmin ltb l = Some k /\ l !! k = Some m
    /\ (forall p y, l !! p = Some y -> ~ lt y m)
    /\ (forall p y, p < k -> l !! p = Some y -> lt m y).
Proof using ltb_lt lt_irrefl lt_trans lt_negtrans.
  destruct l as [|x l]; [done|]. intros _. simpl.
  destruct (argmin_from_spec l [x] x 0 1) as (m & H1 & H2 & H3).
  - done.
  - done.
  - intros [|p] y Hp; simpl in Hp; [|done].
    injection Hp as <-. apply lt_irrefl.
  - intros p y Hp. lia.
  - exists (Np.argmin_from ltb x 0 1 l), m. simpl in *. eauto.
Qed.
End ArgminSpec.

Lemma Qltb_lt (x y : Q) : Np.Qltb x y = true <-> (x < y)%Q.
Proof.
  unfold Np.Qltb.
  rewrite negb_true_iff, <- not_true_iff_false, Qle_bool_iff.
  split; [apply Qnot_le_lt | apply Qlt_not_le].
Qed.

Lemma argmin_Q (l : list Q) :
  l <> [] ->
  exists k m, Np.argmin Np.Qltb l = Some k /\ l !! k = Some m
    /\ (forall p y, l !! p = Some y -> (m <= y)%Q)
    /\ (forall p y, p < k -> l !! p = Some y -> (m < y)%Q).
Proof.
  intros Hl.
  destruct (argmin_spec Np.Qltb Qlt Qltb_lt Qlt_irrefl Qlt_trans) with (l := l)
    as (k & m & Hk & Hm & Hmin & Hfirst); [|done|].
  - intros x y z Hxy Hyz Hxz.
    apply Qnot_lt_le in Hxy, Hyz. apply (Qlt_not_le _ _ Hxz).
    by apply Qle_trans with y.
  - exists k, m. repeat split; [done..| |done].
    intros p y Hp. apply Qnot_lt_le. eauto.
Qed.

Lemma argmin_nat (l : list nat) :
  l <> [] ->
  exists k m, Np.argmin Nat.ltb l = Some k /\ l !! k = Some m
    /\ (forall p y, l !! p = Some y -> m <= y)
    /\ (forall p y, p < k -> l !! p = Some y -> m < y).
Proof.
  intros Hl.
  destruct (argmin_spec Nat.ltb lt Nat.ltb_lt Nat.lt_irrefl Nat.lt_trans)
    with (l := l) as (k & m & Hk & Hm & Hmin & Hfirst); [lia|done|].
  exists k, m. repeat split; [done..| |done].
  intros p y Hp. apply Nat.nlt_ge. eauto.
Qed.

(** ** The matcher *)

Lemma cdist_argmin_total (ref ts : list Q) :
  ts <> [] -> is_Some (Np.argmin_last_axis (Np.cdist ref ts)).
Proof.
  intros Hts. unfold Np.argmin_last_axis, Np.cdist. simpl.
  destruct ts as [|u ts]; [done|]. simpl.
  apply mapM_is_Some, Forall_forall. intros row Hrow.
  apply list_elem_of_In, in_map_iff in Hrow as (a & <- & _). by eexists.
Qed.

Lemma cdist_argmin_spec (ref ts : list Q) (idx : list nat) :
  Np.argmin_last_axis (Np.cdist ref ts) = Some idx ->
  length idx = length ref
  /\ (forall j t k, ref !! j = Some t -> idx !! j = Some k -> nearest_first ts t k).
Proof.
  unfold Np.argmin_last_axis, Np.cdist. simpl.
  destruct (Nat.eqb_spec (length ts) 0) as [|Hne]; [done|].
  intros H. apply mapM_Some in H. split.
  - apply Forall2_length in H. by rewrite length_map in H.
  - intros j t k Ht Hk.
    assert (Hrow : map (fun a => map (fun b => Qabs (a - b)) ts) ref !! j
                   = Some (map (fun b => Qabs (t - b)) ts)).
    { change (map ?f ref) with (f <$> ref). by rewrite list_lookup_fmap, Ht. }
    pose proof (Forall2_lookup_lr _ _ _ _ _ _ H Hrow Hk) as Harg.
    destruct (argmin_Q (map (fun b => Qabs (t - b)) ts))
      as (k' & m & Hk' & Hm & Hmin & Hfirst).
    { destruct ts; [done|discriminate]. }
    cbv beta in Harg. rewrite Hk' in Harg. injection Harg as ->.
    change (map ?f ts) with (f <$> ts) in Hm, Hmin, Hfirst.
    rewrite list_lookup_fmap in Hm.
    destruct (ts !! k) as [u|] eqn:Hu; [|done]. injection Hm as <-.
    exists u. split; [done|]. split.
    + intros p y Hy. apply (Hmin p). by rewrite list_lookup_fmap, Hy.
    + intros p y Hp Hy. apply (Hfirst p); [done|].
      by rewrite list_lookup_fmap, Hy.
Qed.

Lemma match_timesteps_entries (tss : list (list Q)) (idxs : list (list nat)) :
  match_timesteps tss = Some idxs ->
  exists r ref,
    Np.argmin Nat.ltb (map length tss) = Some r
    /\ tss !! r = Some ref
    /\ length idxs = length tss
    /\ (forall i ts idx, tss !! i = Some ts -> idxs !! i = Some idx ->
          if decide (i = r) then idx = seq 0 (length ref)
          else Np.argmin_last_axis (Np.cdist ref ts) = Some idx).
Proof.
  unfold match_timesteps.
  destruct (Np.argmin Nat.ltb (map length tss)) as [r|]; [|done]. simpl.
  destruct (tss !! r) as [ref|] eqn:Hr; [|done]. simpl.
  intros H. apply mapM_Some in H. exists r, ref.
  split; [done|]. split; [done|]. split.
  - apply Forall2_length in H. by rewrite length_imap in H.
  - intros i ts idx Hts Hidx.
    assert (Hi : imap (fun idx ts =>
                   if decide (idx = r) then Some (seq 0 (length ref))
                   else Np.argmin_last_axis (Np.cdist ref ts)) tss !! i
                 = Some (if decide (i = r) then Some (seq 0 (length ref))
                         else Np.argmin_last_axis (Np.cdist ref ts))).
    { by rewrite list_lookup_imap, Hts. }
    pose proof (Forall2_lookup_lr _ _ _ _ _ _ H Hi Hidx) as E.
    cbv beta in E. destruct (decide (i = r)); congruence.
Qed.

Lemma match_timesteps_total (tss : list (list Q)) :
  tss <> [] -> Forall (fun ts => ts <> []) tss ->
  is_Some (match_timesteps tss).
Proof.
  intros Hne Hall. unfold match_timesteps.
  destruct (argmin_nat (map length tss)) as (r & m & Hr & Hm & _).
  { destruct tss; [done|discriminate]. }
  rewrite Hr. simpl.
  change (map length tss) with (length <$> tss) in Hm.
  rewrite list_lookup_fmap in Hm.
  destruct (tss !! r) as [ref|] eqn:Href; [|done]. simpl.
  apply mapM_is_Some, Forall_lookup. intros i o Hi.
  rewrite list_lookup_imap in Hi.
  destruct (tss !! i) as [ts|] eqn:Hts; [|done]. injection Hi as <-.
  simpl. destruct (decide (i = r)); [by eexists|].
  apply cdist_argmin_total. by eapply Forall_lookup_1 in Hall.
Qed.

Lemma match_timesteps_reference_shortest (tss : list (list Q)) (r : nat)
    (ref : list Q) :
  Np.argmin Nat.ltb (map length tss) = Some r -> tss !! r = Some ref ->
  (forall i ts, tss !! i = Some ts -> length ref <= length ts)
  /\ (forall i ts, i < r -> tss !! i = Some ts -> length ref < length ts).
Proof.
  intros Hr Href.
  destruct (argmin_nat (map length tss)) as (r' & m & Hr' & Hm & Hmin & Hfirst).
  { destruct tss; [done|discriminate]. }
  rewrite Hr in Hr'. injection Hr' as <-.
  change (map length tss) with (length <$> tss) in Hm, Hmin, Hfirst.
  rewrite list_lookup_fmap, Href in Hm. injection Hm as <-.
  split.
  - intros i ts Hts. apply (Hmin i). by rewrite list_lookup_fmap, Hts.
  - intros i ts Hi Hts. apply (Hfirst i); [done|].
    by rewrite list_lookup_fmap, Hts.
Qed.

Example match_timesteps_docstring :
  match_timesteps [ts1; ts2; ts3]
  = Some [[0; 1; 2; 3; 4]; [0; 1; 2; 3; 4]; [0; 2; 3; 4; 7]].
Proof. vm_compute. reflexivity. Qed.



(** C9. On non-empty input sequences [match_timesteps] returns, and every
    index of the [i]-th returned list is a valid position of the [i]-th
    input sequence. *)
Theorem match_timesteps_indices_in_range (tss : list (list Q)) :
  tss <> [] ->
  Forall (fun ts => ts <> []) tss ->
  exists idxs,
    match_timesteps tss = Some idxs
    /\ Forall2 (fun ts idx => Forall (fun k => k < length ts) idx) tss idxs.
Proof.
  intros Hne Hall.
  destruct (match_timesteps_total tss Hne Hall) as [idxs Hm].
  destruct (match_timesteps_entries _ _ Hm) as (r & ref & Hr & Href & Hl & He).
  destruct (match_timesteps_reference_shortest _ _ _ Hr Href) as [Hs _].
  exists idxs. split; [done|].
  apply Forall2_same_length_lookup. split; [done|].
  intros i ts idx Hts Hi. specialize (He i ts idx Hts Hi).
  apply Forall_lookup. intros j k Hk.
  destruct (decide (i = r)) as [->|Hir].
  - subst idx. apply lookup_seq in Hk as [-> Hj].
    rewrite Href in Hts. injection Hts as <-. simpl. lia.
  - apply cdist_argmin_spec in He as [Hlen Hnear].
    destruct (ref !! j) as [t|] eqn:Ht.
    + destruct (Hnear j t k Ht Hk) as (u & Hu & _).
      by apply lookup_lt_Some in Hu.
    + apply lookup_ge_None in Ht. apply lookup_lt_Some in Hk. lia.
Qed.

Lemma match_timesteps_indices_in_range_witness :
  exists idxs,
    match_timesteps [ts1; ts2; ts3] = Some idxs
    /\ Forall2 (fun ts idx => Forall (fun k => k < length ts) idx)
         [ts1; ts2; ts3] idxs.
Proof.
  apply (match_timesteps_indices_in_range [ts1; ts2; ts3]).
  - discriminate.
  - repeat constructor; discriminate.
Defined.

(** ** Alignment of a sample *)

Lemma match_timesteps_shape (tss : list (list Q)) :
  tss <> [] ->
  Forall (fun ts => ts <> []) tss ->
  exists idxs n,
    match_timesteps tss = Some idxs
    /\ 0 < n
    /\ Forall (fun idx => length idx = n) idxs
    /\ Forall2 (fun ts idx => Forall (fun k => k < length ts) idx) tss idxs.
Proof.
  intros Hne Hall.
  destruct (match_timesteps_total tss Hne Hall) as [idxs Hm].
  destruct (match_timesteps_entries _ _ Hm) as (r & ref & Hr & Href & Hl & He).
  destruct (match_timesteps_reference_shortest _ _ _ Hr Href) as [Hs _].
  exists idxs, (length ref). split; [done|]. split; [|split].
  - eapply Forall_lookup_1 in Hall; [|exact Href].
    destruct ref; [done|simpl; lia].
  - apply Forall_lookup. intros i idx Hi.
    assert (Hlt : i < length tss) by (rewrite <- Hl; by eapply lookup_lt_Some).
    apply lookup_lt_is_Some_2 in Hlt as [ts Hts].
    specialize (He i ts idx Hts Hi). destruct (decide (i = r)).
    + subst idx. apply length_seq.
    + by apply cdist_argmin_spec in He as [? _].
  - apply Forall2_same_length_lookup. split; [done|].
    intros i ts idx Hts Hi. specialize (He i ts idx Hts Hi).
    apply Forall_lookup. intros j k Hk.
    destruct (decide (i = r)) as [->|Hir].
    + subst idx. apply lookup_seq in Hk as [-> Hj].
      rewrite Href in Hts. injection Hts as <-. simpl. lia.
    + apply cdist_argmin_spec in He as [Hlen Hnear].
      destruct (ref !! j) as [t|] eqn:Ht.
      * destruct (Hnear j t k Ht Hk) as (u & Hu & _).
        by apply lookup_lt_Some in Hu.
      * apply lookup_ge_None in Ht. apply lookup_lt_Some in Hk. lia.
Qed.

Lemma take_indices_spec {A} (a : list A) (ix : list nat) :
  Forall (fun k => k < length a) ix ->
  exists a', Np.take_indices a ix = Some a'
    /\ length a' = length ix
    /\ (forall j k, ix !! j = Some k -> a' !! j = a !! k).
Proof.
  intros Hix. unfold Np.take_indices.
  destruct (mapM (fun k => a !! k) ix) as [a'|] eqn:E.
  - exists a'. apply mapM_Some in E. split; [done|]. split.
    + symmetry. by eapply Forall2_length.
    + intros j k Hk.
      destruct (Forall2_lookup_l _ _ _ _ _ E Hk) as (x & -> & Hx). done.
  - apply mapM_None, Exists_exists in E as (k & Hk & Hnone).
    apply lookup_ge_None in Hnone.
    rewrite Forall_forall in Hix. specialize (Hix k Hk). lia.
Qed.

Lemma align_views_app indexes (l1 l2 : list nat) st :
  align_views indexes (l1 ++ l2) st
  = align_views indexes l1 st ≫= align_views indexes l2.
Proof.
  revert st. induction l1 as [|i l1 IH]; intros st; simpl; [done|].
  destruct (align_view indexes st i) as [st'|]; simpl; [apply IH|done].
Qed.

Lemma reindex_length {A} indexes n (xs : list (list A)) :
  length (reindex indexes n xs) = length xs.
Proof. apply length_imap. Qed.

Lemma reindex_lookup {A} indexes n (xs : list (list A)) i :
  reindex indexes n xs !! i
  = (fun x => if decide (i < n)
              then default x (indexes !! i ≫= Np.take_indices x) else x)
    <$> xs !! i.
Proof. unfold reindex. by rewrite list_lookup_imap. Qed.

Lemma reindex_step {A} indexes n (xs : list (list A)) x ix x' :
  xs !! n = Some x -> indexes !! n = Some ix ->
  Np.take_indices x ix = Some x' ->
  <[n := x']> (reindex indexes n xs) = reindex indexes (S n) xs.
Proof.
  intros Hx Hix Hx'. apply list_eq. intros i.
  destruct (decide (i = n)) as [->|Hne].
  - rewrite list_lookup_insert_eq
      by (rewrite reindex_length; by eapply lookup_lt_Some).
    rewrite reindex_lookup, Hx. simpl.
    destruct (decide (n < S n)); [|lia]. by rewrite Hix; simpl; rewrite Hx'.
  - rewrite list_lookup_insert_ne by done.
    rewrite !reindex_lookup. destruct (xs !! i); [simpl|done].
    destruct (decide (i < n)), (decide (i < S n)); try done; lia.
Qed.

Lemma align_views_reindex indexes (arrs : list (list frame))
    (tss : list (list Q)) (n : nat) :
  n <= length tss ->
  Forall2 (fun ts idx => Forall (fun k => k < length ts) idx) tss indexes ->
  Forall2 (fun (a : list frame) (ts : list Q) => length a = length ts) arrs tss ->
  align_views indexes (seq 0 n) (arrs, tss)
  = Some (reindex indexes n arrs, reindex indexes n tss).
Proof.
  intros Hn Hix Harr. induction n as [|n IH].
  - simpl. f_equal. f_equal; apply list_eq; intros i;
      rewrite reindex_lookup; destruct (_ !! i); simpl; try done;
      destruct (decide (i < 0)); done || lia.
  - rewrite seq_S, align_views_app, IH by lia. simpl.
    assert (Hlt : n < length tss) by lia.
    destruct (lookup_lt_is_Some_2 _ _ Hlt) as [ts Hts].
    destruct (Forall2_lookup_l _ _ _ _ _ Hix Hts) as (ix & Hixn & Hrange).
    destruct (Forall2_lookup_r _ _ _ _ _ Harr Hts) as (a & Ha & Hlen).
    destruct (take_indices_spec ts ix Hrange) as (ts' & Hts' & _).
    destruct (take_indices_spec a ix) as (a' & Ha' & _).
    { by rewrite Hlen. }
    rewrite !reindex_lookup, Ha, Hts, Hixn. simpl.
    destruct (decide (n < n)); [lia|]. simpl.
    rewrite Ha', Hts'. simpl.
    by rewrite (reindex_step _ _ _ _ _ _ Ha Hixn Ha'),
               (reindex_step _ _ _ _ _ _ Hts Hixn Hts').
Qed.

Lemma reindex_all_length {A} indexes n (xs : list (list A)) :
  Forall (fun idx => length idx = n) indexes ->
  Forall2 (fun x idx => Forall (fun k => k < length x) idx) xs indexes ->
  Forall (fun x => length x = n) (reindex indexes (length xs) xs).
Proof.
  intros Hn Hix. apply Forall_lookup. intros i x' Hi.
  rewrite reindex_lookup in Hi.
  destruct (xs !! i) as [x|] eqn:Hx; [|done]. simpl in Hi.
  injection Hi as <-.
  destruct (decide (i < length xs)) as [_|Hge];
    [|apply lookup_lt_Some in Hx; lia].
  destruct (Forall2_lookup_l _ _ _ _ _ Hix Hx) as (ix & Hixi & Hrange).
  destruct (take_indices_spec x ix Hrange) as (x' & Hx' & Hlen & _).
  rewrite Hixi. simpl. rewrite Hx'. simpl. rewrite Hlen.
  by eapply Forall_lookup_1 in Hn.
Qed.

Lemma test_alignment_equal_lengths (s : TPA_Sample_from_data) (n : nat) :
  Forall (fun ts => length ts = n) (timestamps s) -> test_alignment s = true.
Proof.
  intros H. unfold test_alignment.
  destruct (timestamps s) as [|ts tss] eqn:E; [done|].
  change (map length (ts :: tss)) with (length ts :: map length tss).
  apply forallb_forall. intros l Hl.
  change (length ts :: map length tss) with (map length (ts :: tss)) in Hl.
  apply in_map_iff in Hl as (ts' & <- & Hin).
  rewrite Forall_forall in H.
  rewrite (H ts') by by apply list_elem_of_In.
  rewrite (H ts) by (apply list_elem_of_In; by left).
  apply Nat.eqb_refl.
Qed.

(** Without [reset_T0] a well-formed sample is re-indexed view by view. *)
Lemma align_timesteps_keep (s : TPA_Sample_from_data) :
  sample_wf s ->
  exists idxs n,
    match_timesteps (timestamps s) = Some idxs
    /\ 0 < n
    /\ align_timesteps false s
       = Some {| filepaths := filepaths s; ids := ids s;
                 arrays := reindex idxs (length (arrays s)) (arrays s);
                 timestamps := reindex idxs (length (timestamps s)) (timestamps s) |}
    /\ Forall (fun a => length a = n)
         (reindex idxs (length (arrays s)) (arrays s))
    /\ Forall (fun ts => length ts = n)
         (reindex idxs (length (timestamps s)) (timestamps s)).
Proof.
  intros (Hne & Hall & Hids & Harr).
  destruct (match_timesteps_shape _ Hne Hall) as (idxs & n & Hm & Hn & Hlen & Hrange).
  exists idxs, n. split; [done|]. split; [done|].
  assert (Hla : length (arrays s) = length (timestamps s))
    by by eapply Forall2_length.
  split; [|split].
  - unfold align_timesteps. rewrite Hm. simpl.
    rewrite Hids, align_views_reindex by done. simpl. by rewrite Hla.
  - apply reindex_all_length; [done|].
    apply Forall2_same_length_lookup. split.
    + rewrite Hla. by eapply Forall2_length.
    + intros i a ix Ha Hix.
      destruct (Forall2_lookup_l _ _ _ _ _ Harr Ha) as (ts & Hts & Hl).
      rewrite Hl. by eapply (Forall2_lookup_lr _ _ _ _ _ _ Hrange).
  - by apply reindex_all_length.
Qed.



Lemma firsts_total (tss : list (list Q)) (n : nat) :
  0 < n -> Forall (fun ts => length ts = n) tss ->
  exists firsts, mapM (fun ts : list Q => ts !! 0) tss = Some firsts.
Proof.
  intros Hn Hall. apply mapM_is_Some, Forall_forall. intros ts Hts.
  rewrite Forall_forall in Hall. specialize (Hall ts Hts). simpl.
  apply lookup_lt_is_Some_2. lia.
Qed.


(** With [reset_T0] the re-indexed timestamps are shifted by the smallest
    first timestamp. *)
Lemma align_timesteps_reset (s s0 : TPA_Sample_from_data) (n : nat) :
  align_timesteps false s = Some s0 ->
  timestamps s0 <> [] -> 0 < n ->
  Forall (fun ts => length ts = n) (timestamps s0) ->
  exists firsts c,
    mapM (fun ts : list Q => ts !! 0) (timestamps s0) = Some firsts
    /\ Np.min firsts = Some c
    /\ align_timesteps true s
       = Some {| filepaths := filepaths s0; ids := ids s0; arrays := arrays s0;
                 timestamps := map (map (fun t => t - c)%Q) (timestamps s0) |}.
Proof.
  unfold align_timesteps.
  destruct (match_timesteps (timestamps s)) as [idxs|]; [simpl|done].
  destruct (align_views idxs _ _) as [[arrs tss]|]; [simpl|done].
  intros [= <-]. simpl. intros Hne Hn Hall.
  destruct (firsts_total tss n Hn Hall) as [firsts Hf].
  assert (Hfl : firsts <> []).
  { apply length_mapM in Hf. destruct tss, firsts; done. }
  destruct firsts as [|x firsts]; [done|].
  exists (x :: firsts). eexists. split; [done|]. split; [done|].
  by rewrite Hf.
Qed.

Example align_two_views :
  align_timesteps true two_views
  = Some {| filepaths := None;
            ids := ["0"; "1"]%string;
            arrays := [ [ [[20]]; [[22]] ]; [ [[30]]; [[31]] ] ]%Q;
            timestamps := [ [10.5 - 10.25; 11.5 - 10.25];
                            [10.25 - 10.25; 11.6 - 10.25] ]%Q |}.
Proof. reflexivity. Qed.

(** C2, as the code has it.  For every data-backed sample of at least one
    view (one id, one array and one non-empty timestamp list per view, one
    frame per timestamp), [align_timesteps] returns and [test_alignment]
    then answers true: all timestamp lists and all arrays have the same
    length. *)
Theorem align_timesteps_then_test_alignment (s : TPA_Sample_from_data)
    (reset_T0 : bool) :
  sample_wf s ->
  exists s' n,
    align_timesteps reset_T0 s = Some s'
    /\ test_alignment s' = true
    /\ Forall (fun ts => length ts = n) (timestamps s')
    /\ Forall (fun a => length a = n) (arrays s').
Proof.
  intros Hwf.
  destruct (align_timesteps_keep s Hwf) as (idxs & n & Hm & Hn & H0 & Ha & Ht).
  destruct reset_T0.
  - destruct (align_timesteps_reset s _ n H0) as (firsts & c & _ & _ & H1);
      [|done|done|].
    { simpl. destruct Hwf as (Hne & _). intros E.
      apply (f_equal length) in E. rewrite reindex_length in E.
      destruct (timestamps s); done. }
    simpl in H1. eexists _, n. split; [exact H1|].
    assert (Hshift : Forall (fun ts => length ts = n)
              (map (map (fun t => t - c)%Q)
                 (reindex idxs (length (timestamps s)) (timestamps s)))).
    { rewrite Forall_forall in Ht. apply Forall_forall. intros ts Hts.
      apply list_elem_of_In, in_map_iff in Hts as (ts0 & <- & Hin).
      rewrite length_map. apply Ht. by apply list_elem_of_In. }
    split; [by eapply test_alignment_equal_lengths|]. by split.
  - eexists _, n. split; [exact H0|].
    split; [by eapply test_alignment_equal_lengths|]. by split.
Qed.

Lemma align_timesteps_then_test_alignment_witness :
  exists s' n,
    align_timesteps true two_views = Some s'
    /\ test_alignment s' = true
    /\ Forall (fun ts => length ts = n) (timestamps s')
    /\ Forall (fun a => length a = n) (arrays s').
Proof.
  apply (align_timesteps_then_test_alignment two_views true).
  split; [discriminate|]. split; [repeat constructor; discriminate|].
  split; [reflexivity|]. repeat constructor.
Defined.

(** C2, as stated, fails on a sample without views: every timestamp list
    of [no_views] is non-empty, yet [np.argmin] of the empty list of lengths
    raises inside [match_timesteps], so [align_timesteps] does not return. *)
Lemma align_timesteps_no_views :
  Forall (fun ts => ts <> []) (timestamps no_views)
  /\ forall reset_T0,
       align_timesteps reset_T0 no_views = None
       /\ ~ (exists s', align_timesteps reset_T0 no_views = Some s'
                        /\ test_alignment s' = true).
Proof.
  split; [constructor|]. intros reset_T0.
  assert (H : align_timesteps reset_T0 no_views = None) by reflexivity.
  split; [done|]. intros (s' & Hs & _). congruence.
Qed.



(** ** File names *)

Example split_ID_twice : Str.split "ID" "aIDbID1" = ["a"; "b"; "1"]%string.
Proof. reflexivity. Qed.

Example split_ID_edge :
  Str.split "ID" "" = [""]%string /\ Str.split "ID" "ID" = [""; ""]%string
  /\ Str.split "ID" "IID" = ["I"; ""]%string
  /\ Str.split "." "a.b.c" = ["a"; "b"; "c"]%string.
Proof. repeat split. Qed.

Example file_prefix_and_id :
  _TPA_get_file_prefix "raw/20200101_1200_ID121.txt" = "20200101_1200_"%string
  /\ _read_ID "raw/20200101_1200_ID121.txt" = "121"%string
  /\ path_join "raw" "20200101_1200_ID121.txt" = "raw/20200101_1200_ID121.txt"%string.
Proof. repeat split. Qed.

Lemma prefix_cons (a b : ascii) (s1 s2 : string) :
  String.prefix (String a s1) (String b s2)
  = if ascii_dec a b then String.prefix s1 s2 else false.
Proof. reflexivity. Qed.

Lemma prefix_ID_inv (s : string) :
  String.prefix "ID" s = true -> exists r, s = String "I" (String "D" r).
Proof.
  destruct s as [|c s]; [done|]. rewrite prefix_cons.
  destruct (ascii_dec "I" c) as [<-|]; [|done].
  destruct s as [|d s]; [done|]. rewrite prefix_cons.
  destruct (ascii_dec "D" d) as [<-|]; [|done]. by exists s.
Qed.

Lemma prefix_ID_sep (r : string) :
  String.prefix "ID" (String "I" (String "D" r)) = true.
Proof. by destruct r. Qed.

Lemma occurrences_ID_cons (c : ascii) (r : string) :
  Str.occurrences_ID (String c r)
  = (if String.prefix "ID" (String c r) then 1 else 0) + Str.occurrences_ID r.
Proof. reflexivity. Qed.

Lemma occurrences_ID_sep (r : string) :
  Str.occurrences_ID (String "I" (String "D" r)) = S (Str.occurrences_ID r).
Proof. by destruct r. Qed.

Lemma split_ID_sep (r : string) :
  Str.split "ID" (String "I" (String "D" r)) = EmptyString :: Str.split "ID" r.
Proof. by destruct r. Qed.

Lemma split_ID_other (c : ascii) (r : string) :
  String.prefix "ID" (String c r) = false ->
  Str.split "ID" (String c r) = Str.cons_head c (Str.split "ID" r).
Proof.
  intros H. unfold Str.split.
  change (Str.split_from "ID" 0 (String c r))
    with (if String.prefix "ID" (String c r)
          then EmptyString :: Str.split_from "ID" 1 r
          else Str.cons_head c (Str.split_from "ID" 0 r)).
  by rewrite H.
Qed.

(** Induction along the way [split] reads a string: either a separator
    starts here, or one character joins the current piece. *)
Lemma string_ID_ind (P : string -> Prop) :
  P EmptyString ->
  (forall r, P r -> P (String "I" (String "D" r))) ->
  (forall c r, String.prefix "ID" (String c r) = false -> P r -> P (String c r)) ->
  forall s, P s.
Proof.
  intros Hnil Hsep Hother s.
  assert (H : forall n s, String.length s <= n -> P s).
  { clear s. induction n as [|n IH]; intros s Hs.
    - destruct s; [done|simpl in Hs; lia].
    - destruct s as [|c r]; [done|].
      destruct (String.prefix "ID" (String c r)) eqn:E.
      + apply prefix_ID_inv in E as [r' E]. rewrite E.
        injection E as -> ->. apply Hsep, IH. simpl in Hs. lia.
      + apply Hother; [done|]. apply IH. simpl in Hs. lia. }
  by apply (H (String.length s)).
Qed.

Lemma split_ID_nonempty (s : string) : Str.split "ID" s <> [].
Proof.
  induction s as [|r IH|c r E IH] using string_ID_ind;
    [done|by rewrite split_ID_sep|].
  rewrite split_ID_other by done. by destruct (Str.split "ID" r).
Qed.

Lemma join_cons_head (c : ascii) (l : list string) :
  l <> [] -> Str.join "ID" (Str.cons_head c l) = String c (Str.join "ID" l).
Proof. destruct l as [|p [|q ps]]; done. Qed.

Lemma join_split_ID (s : string) : Str.join "ID" (Str.split "ID" s) = s.
Proof.
  induction s as [|r IH|c r E IH] using string_ID_ind; [done| |].
  - rewrite split_ID_sep. pose proof (split_ID_nonempty r) as Hne.
    destruct (Str.split "ID" r) as [|p ps]; [done|].
    change (Str.join "ID" (EmptyString :: p :: ps))
      with (String "I" (String "D" (Str.join "ID" (p :: ps)))).
    by rewrite IH.
  - rewrite split_ID_other, join_cons_head, IH
      by auto using split_ID_nonempty. done.
Qed.

Lemma split_ID_length (s : string) :
  length (Str.split "ID" s) = S (Str.occurrences_ID s).
Proof.
  induction s as [|r IH|c r E IH] using string_ID_ind; [done| |].
  - rewrite split_ID_sep, occurrences_ID_sep, <- IH. done.
  - rewrite split_ID_other, occurrences_ID_cons, E by done.
    rewrite Nat.add_0_l, <- IH.
    pose proof (split_ID_nonempty r). by destruct (Str.split "ID" r).
Qed.

(** The first piece stops where the first ["ID"] starts. *)
Lemma split_ID_first (s : string) :
  exists rest,
    s = hd EmptyString (Str.split "ID" s) +:+ rest
    /\ Str.occurrences_ID (hd EmptyString (Str.split "ID" s)) = 0
    /\ (rest = EmptyString \/ String.prefix "ID" rest = true).
Proof.
  induction s as [|r IH|c r E IH] using string_ID_ind.
  - exists EmptyString. auto.
  - exists (String "I" (String "D" r)). rewrite split_ID_sep.
    split; [done|]. split; [done|]. right. apply prefix_ID_sep.
  - destruct IH as (rest & Hr & Hocc & Hrest).
    rewrite split_ID_other by done.
    pose proof (split_ID_nonempty r) as Hne.
    destruct (Str.split "ID" r) as [|p ps]; [done|].
    change (hd EmptyString (Str.cons_head c (p :: ps))) with (String c p).
    change (hd EmptyString (p :: ps)) with p in Hr, Hocc.
    exists rest. split; [by rewrite Hr at 1|]. split; [|done].
    rewrite occurrences_ID_cons, Hocc.
    destruct (String.prefix "ID" (String c p)) eqn:E2; [|done].
    apply prefix_ID_inv in E2 as [r' E2]. injection E2 as -> ->.
    rewrite Hr in E.
    change (String "D" r' +:+ rest) with (String "D" (r' +:+ rest)) in E.
    by rewrite prefix_ID_sep in E.
Qed.

(** The last piece starts where the last ["ID"] ends. *)
Lemma split_ID_last (s : string) :
  exists front,
    s = front +:+ List.last (Str.split "ID" s) EmptyString
    /\ Str.occurrences_ID (List.last (Str.split "ID" s) EmptyString) = 0
    /\ (front = EmptyString \/ ends_with_ID front).
Proof.
  induction s as [|r IH|c r E IH] using string_ID_ind.
  - exists EmptyString. auto.
  - destruct IH as (front & Hr & Hocc & Hfront).
    rewrite split_ID_sep. pose proof (split_ID_nonempty r) as Hne.
    destruct (Str.split "ID" r) as [|p ps] eqn:Hs; [done|].
    change (List.last (EmptyString :: p :: ps) EmptyString)
      with (List.last (p :: ps) EmptyString).
    exists (String "I" (String "D" front)).
    split; [by rewrite Hr at 1|].
    split; [done|]. right. destruct Hfront as [->|[f ->]].
    + by exists EmptyString.
    + by exists (String "I" (String "D" f)).
  - destruct IH as (front & Hr & Hocc & Hfront).
    rewrite split_ID_other by done.
    pose proof (split_ID_length r) as Hlen.
    pose proof (join_split_ID r) as Hjoin.
    destruct (Str.split "ID" r) as [|p [|q ps]] eqn:Hs; [done| |].
    + change (List.last (Str.cons_head c [p]) EmptyString) with (String c p).
      change (Str.join "ID" [p]) with p in Hjoin. subst p.
      exists EmptyString. split; [done|]. split; [|by left].
      rewrite occurrences_ID_cons, E. simpl in Hlen. lia.
    + change (List.last (Str.cons_head c (p :: q :: ps)) EmptyString)
        with (List.last (p :: q :: ps) EmptyString).
      exists (String c front). split; [by rewrite Hr at 1|].
      split; [done|]. right. destruct Hfront as [->|[f ->]].
      * change (EmptyString +:+ ?x) with x in Hr.
        rewrite <- Hr in Hocc. simpl in Hlen. lia.
      * by exists (String c f).
Qed.

(** C10. [_TPA_get_file_prefix] returns the text before the first ["ID"]
    of the extension-stripped basename and [_read_ID] the text after the
    last one; when that name contains ["ID"] exactly once,
    prefix + "ID" + view id is the name again; with two occurrences it
    need not be. *)
Theorem prefix_ID_view_id_reconstruct :
  (forall filepath : string,
     let name := remove_extension (basename filepath) in
     (exists rest,
        name = _TPA_get_file_prefix filepath +:+ rest
        /\ Str.occurrences_ID (_TPA_get_file_prefix filepath) = 0
        /\ (rest = EmptyString \/ String.prefix "ID" rest = true))
     /\ (exists front,
           name = front +:+ _read_ID filepath
           /\ Str.occurrences_ID (_read_ID filepath) = 0
           /\ (front = EmptyString \/ ends_with_ID front))
     /\ (Str.occurrences_ID name = 1 ->
         _TPA_get_file_prefix filepath +:+ "ID" +:+ _read_ID filepath = name))
  /\ (exists filepath : string,
        let name := remove_extension (basename filepath) in
        Str.occurrences_ID name = 2
        /\ Str.occurrences_ID (_TPA_get_file_prefix filepath) = 0
        /\ _TPA_get_file_prefix filepath +:+ "ID" +:+ _read_ID filepath <> name).
Proof.
  split.
  - intros filepath name. unfold _TPA_get_file_prefix, _read_ID. fold name.
    split; [apply split_ID_first|]. split; [apply split_ID_last|].
    intros Hocc. pose proof (split_ID_length name) as Hlen.
    pose proof (join_split_ID name) as Hjoin. rewrite Hocc in Hlen.
    destruct (Str.split "ID" name) as [|a [|b [|c l]]]; try done.
  - exists "dir/aIDbID1.txt"%string. by vm_compute.
Qed.

Lemma prefix_ID_view_id_reconstruct_witness :
  (_TPA_get_file_prefix "raw/s1_ID3.txt" +:+ "ID" +:+ _read_ID "raw/s1_ID3.txt"
   = "s1_ID3")%string.
Proof.
  apply (proj1 prefix_ID_view_id_reconstruct "raw/s1_ID3.txt"%string).
  reflexivity.
Defined.
(** ** The completeness filter *)

Example remove_missing_views_spec_example :
  _remove_missing_views ["0"; "1"; "2"] ["A"; "B"; "A"; "B"; "A"] ["A"; "B"]
  = Some ["A"]%string.
Proof. reflexivity. Qed.

Lemma list_mem_In (x : string) (l : list string) :
  Py.list_mem x l = true <-> In x l.
Proof.
  unfold Py.list_mem. rewrite existsb_exists. split.
  - intros (y & Hy & E). apply String.eqb_eq in E. by subst.
  - intros H. exists x. split; [done|apply String.eqb_refl].
Qed.

Lemma count_pos_In (x : string) (l : list string) :
  0 < Py.count x l <-> In x l.
Proof.
  unfold Py.count. induction l as [|y l IH]; simpl; [split; [lia|done]|].
  destruct (String.eqb_spec x y) as [->|Hne]; simpl.
  - split; [auto|lia].
  - rewrite IH. split; [auto|]. intros [|]; [congruence|done].
Qed.

Lemma counter_keys_In (x : string) (l : list string) :
  In x (Py.counter_keys l) <-> In x l.
Proof.
  induction l as [|y l IH]; simpl; [done|].
  rewrite filter_In, IH, negb_true_iff, String.eqb_neq.
  destruct (String.eqb_spec y x); split; intros H; auto.
  - destruct H as [|[]]; auto.
  - destruct H as [|]; [congruence|auto].
Qed.

Lemma counter_keys_NoDup (l : list string) : List.NoDup (Py.counter_keys l).
Proof.
  induction l as [|y l IH]; simpl; constructor.
  - rewrite filter_In, negb_true_iff, String.eqb_neq. by intros [_ ?].
  - by apply List.NoDup_filter.
Qed.

Lemma filter_other_id (x : string) (l : list string) :
  ~ In x l -> List.filter (fun y => negb (String.eqb x y)) l = l.
Proof.
  induction l as [|y l IH]; simpl; [done|]. intros H.
  destruct (String.eqb_spec x y) as [->|Hne]; simpl.
  - exfalso. auto.
  - f_equal. auto.
Qed.

(** On a list without duplicates [remove] leaves the other elements. *)
Lemma list_remove_NoDup (x : string) (l : list string) :
  List.NoDup l -> In x l ->
  Py.list_remove x l = Some (List.filter (fun y => negb (String.eqb x y)) l).
Proof.
  induction l as [|y l IH]; simpl; [done|]. intros Hnd Hin.
  apply List.NoDup_cons_iff in Hnd as [Hy Hnd].
  destruct (String.eqb_spec x y) as [->|Hne]; simpl.
  - by rewrite filter_other_id.
  - destruct Hin as [|Hin]; [congruence|]. by rewrite IH.
Qed.

Lemma filter_filter_andb {A} (f g : A -> bool) (l : list A) :
  List.filter f (List.filter g l) = List.filter (fun x => g x && f x) l.
Proof.
  induction l as [|x l IH]; simpl; [done|].
  destruct (g x); simpl; [destruct (f x)|]; by rewrite IH.
Qed.

Lemma remove_missing_loop_spec (prefixes : list string) (vn : nat)
    (keys acc : list string) :
  List.NoDup keys -> List.NoDup acc ->
  (forall k, In k keys -> Py.count k prefixes < vn -> In k acc) ->
  remove_missing_loop prefixes vn keys acc
  = Some (List.filter
            (fun p => negb (Py.list_mem p keys
                            && Nat.ltb (Py.count p prefixes) vn)) acc).
Proof.
  revert acc. induction keys as [|k keys IH]; intros acc Hk Hacc Hin; simpl.
  - f_equal. induction acc as [|p acc IHa]; simpl; [done|].
    apply List.NoDup_cons_iff in Hacc as [_ Hacc]. by rewrite <- IHa.
  - apply List.NoDup_cons_iff in Hk as [Hk Hkeys].
    destruct (Nat.ltb_spec (Py.count k prefixes) vn) as [Hlow|Hhigh].
    + rewrite list_remove_NoDup; [|done|apply Hin; [by left|done]].
      simpl. rewrite IH; [|done|by apply List.NoDup_filter|].
      * f_equal. rewrite filter_filter_andb. apply filter_ext. intros p.
        unfold Py.list_mem. simpl. rewrite (String.eqb_sym k p).
        destruct (String.eqb_spec p k) as [->|Hne]; simpl; [|done].
        apply Nat.ltb_lt in Hlow. by rewrite Hlow.
      * intros k' Hk' Hlow'. apply filter_In.
        split; [apply Hin; [by right|done]|].
        apply negb_true_iff, String.eqb_neq. congruence.
    + rewrite IH; [|done|done|intros k' Hk'; apply Hin; by right].
      f_equal. apply filter_ext. intros p.
      unfold Py.list_mem. simpl.
      destruct (String.eqb_spec p k) as [->|Hne]; simpl; [|done].
      apply Nat.ltb_ge in Hhigh. by rewrite Hhigh, ?andb_false_r.
Qed.

(** C5, as the code has it.  For a candidate list without duplicates that
    contains every prefix of the file list with fewer occurrences than
    views, [_remove_missing_views] removes exactly the candidates that occur
    in the file list, and occur there fewer times than there are views; all
    others, also those that do not occur at all, are kept, in their order. *)
Theorem remove_missing_views_incomplete_groups
    (view_IDs prefixes candidates : list string) :
  List.NoDup candidates ->
  (forall p, In p prefixes -> Py.count p prefixes < length view_IDs ->
             In p candidates) ->
  _remove_missing_views view_IDs prefixes candidates
  = Some (List.filter
            (fun p => negb (Py.list_mem p prefixes
                            && Nat.ltb (Py.count p prefixes) (length view_IDs)))
            candidates).
Proof.
  intros Hnd Hin. unfold _remove_missing_views.
  rewrite remove_missing_loop_spec.
  - f_equal. apply filter_ext. intros p. do 2 f_equal.
    apply eq_true_iff_eq. by rewrite !list_mem_In, counter_keys_In.
  - apply counter_keys_NoDup.
  - done.
  - intros k Hk. apply Hin. by apply counter_keys_In.
Qed.

Lemma remove_missing_views_incomplete_groups_witness :
  _remove_missing_views ["0"; "1"; "2"] ["A"; "B"; "A"; "B"; "A"] ["A"; "B"]
  = Some (List.filter
            (fun p => negb (Py.list_mem p ["A"; "B"; "A"; "B"; "A"]
                            && Nat.ltb (Py.count p ["A"; "B"; "A"; "B"; "A"])
                                 (length ["0"; "1"; "2"])))
            ["A"; "B"])%string.
Proof.
  apply (remove_missing_views_incomplete_groups
           ["0"; "1"; "2"] ["A"; "B"; "A"; "B"; "A"] ["A"; "B"])%string.
  - repeat constructor; simpl; intuition discriminate.
  - intros p Hp _. simpl in Hp. simpl. intuition.
Defined.

(** C5, as stated, fails on a candidate that the file list does not
    contain: its count, 0, is below the number of views, yet only the keys
    of the counter are visited and the candidate stays. *)
Lemma remove_missing_views_keeps_absent :
  Py.count "A" ["B"; "B"] < length ["0"; "1"]
  /\ _remove_missing_views ["0"; "1"] ["B"; "B"] ["A"; "B"]
     = Some ["A"; "B"]%string
  /\ _remove_missing_views ["0"; "1"] ["B"; "B"] ["A"; "B"]
     <> Some (List.filter
                (fun p => negb (Nat.ltb (Py.count p ["B"; "B"])
                                  (length ["0"; "1"])))
                ["A"; "B"])%string.
Proof. split; [vm_compute; lia|]. split; [reflexivity|]. by vm_compute. Qed.

(** ** Label filtering and [make] *)

Example read_labels_normalizes :
  rename_keys (map fst spec_labels) spec_labels
  = Some [("p1", JInt 2); ("p2", JStr ""); ("p3", JStr "x"); ("p4", JInt 5)]%string.
Proof. reflexivity. Qed.

Example glob_processed :
  glob simple_env (processed []) "processed/*ID0.txt"
  = ["processed/aID0.txt"; "processed/bID0.txt"]%string.
Proof. vm_compute. reflexivity. Qed.
Lemma list_remove_length (x : string) (l l' : list string) :
  Py.list_remove x l = Some l' -> length l = S (length l').
Proof.
  revert l'. induction l as [|y l IH]; intros l'; simpl; [done|].
  destruct (String.eqb x y); [by intros [= <-]|].
  destruct (Py.list_remove x l) as [l''|]; simpl; [|done].
  intros [= <-]. simpl. f_equal. by apply IH.
Qed.

(** The loop has come to its end after [length l] turns: more fuel does not
    change what it returns. *)
Lemma for_remove_enough (cond : string -> option bool) (fuel extra i : nat)
    (l : list string) :
  length l <= i + fuel ->
  Py.for_remove cond (fuel + extra) i l = Py.for_remove cond fuel i l.
Proof.
  revert i l. induction fuel as [|fuel IH]; intros i l Hlen; simpl.
  - assert (Hnone : l !! i = None) by (apply lookup_ge_None; lia).
    destruct extra; simpl; [done|]. by rewrite Hnone.
  - destruct (l !! i) as [x|]; [|done].
    destruct (cond x) as [[|]|]; simpl; [|apply IH; lia|done].
    destruct (Py.list_remove x l) as [l'|] eqn:Hrem; simpl; [|done].
    apply list_remove_length in Hrem. apply IH. lia.
Qed.

(** The spec's example: in whatever order the four candidates are
    enumerated, exactly [p1] and [p4] are left. *)
Example filter_labels_spec_example :
  forallb
    (fun candidates =>
       match rename_keys (map fst spec_labels) spec_labels
             ≫= fun labels => filter_labels labels candidates with
       | Some kept => bool_decide (kept ≡ₚ ["p1"; "p4"]%string)
       | None => false
       end)
    (permutations ["p1"; "p2"; "p3"; "p4"]%string)
  = true.
Proof. vm_compute. reflexivity. Qed.

(** C4.  The code at a failing input: with the labels
    [{"a": "x", "b": "y"}], none of them an integer, the loop that drops
    non-integer labels removes the first candidate and, the list having
    shrunk under its iterator, never looks at the second one, which is left
    eligible; this in either order of the two candidates.  A prefix with the
    integer label 0 is dropped as if it had no label.  The last case shows
    the second loop raising [KeyError] on a candidate without label that
    the first loop skipped. *)
Theorem filter_labels_skips_after_remove :
  filter_labels [("a", JStr "x"); ("b", JStr "y")] ["a"; "b"] = Some ["b"]%string
  /\ filter_labels [("a", JStr "x"); ("b", JStr "y")] ["b"; "a"] = Some ["a"]%string
  /\ filter_labels [("a", JInt 0)] ["a"] = Some []
  /\ filter_labels [] ["a"; "b"] = None.
Proof. repeat split. Qed.

(** The same input through [make]: the dataset receives the files of [b],
    the stage marker and the labels file, and the call returns true. *)
Example make_keeps_non_integer_label :
  let w := processed [("a", JStr "x"); ("b", JStr "y")]%string in
  fst (make simple_env maker w) = Return true
  /\ files (snd (make simple_env maker w)) !! "dataset/bID0.txt"%string
     = Some (Raw "b0")
  /\ files (snd (make simple_env maker w)) !! "dataset/aID0.txt"%string = None
  /\ is_Some (files (snd (make simple_env maker w)) !! "dataset/tpa.nfo"%string).
Proof. vm_compute. repeat split. by eexists. Qed.

(** C6. When the completeness and label filters leave no candidate (also
    when there was none to begin with), [make] returns false and the file
    system is the one it found, but for the destination directory, which
    exists afterwards: no file is copied, no [tpa.nfo] and no labels file is
    written. *)
Theorem make_all_ignored (E : Env) (self : TPA_Dataset_Maker) (w : world)
    (number0 : nat) :
  configured self = true ->
  make_candidates E self (ensure_path_exists (dataset_destination_dir self) w)
  = Return ([], number0) ->
  make E self w
  = (Return false, ensure_path_exists (dataset_destination_dir self) w)
  /\ files (snd (make E self w)) = files w
  /\ dirs (snd (make E self w)) = {[dataset_destination_dir self]} ∪ dirs w.
Proof.
  intros Hconf Hcand.
  assert (Hmake : make E self w
    = (Return false, ensure_path_exists (dataset_destination_dir self) w)).
  { unfold make. rewrite Hconf, Hcand. simpl.
    change (Py.count_distinct []) with 0.
    replace (Z.of_nat number0 - Z.of_nat 0)%Z with (Z.of_nat number0) by lia.
    by rewrite Z.eqb_refl. }
  rewrite Hmake. split; [done|]. unfold ensure_path_exists. simpl.
  destruct (decide (dataset_destination_dir self ∈ dirs w)); simpl.
  - split; [done|]. apply set_eq. intros x.
    rewrite elem_of_union, elem_of_singleton.
    split; [by right|]. by intros [->|].
  - done.
Qed.

Lemma make_all_ignored_witness :
  make simple_env maker (processed [("a", JStr ""); ("b", JNull)]%string)
  = (Return false,
     ensure_path_exists (dataset_destination_dir maker)
       (processed [("a", JStr ""); ("b", JNull)]%string))
  /\ files (snd (make simple_env maker
                   (processed [("a", JStr ""); ("b", JNull)]%string)))
     = files (processed [("a", JStr ""); ("b", JNull)]%string)
  /\ dirs (snd (make simple_env maker
                  (processed [("a", JStr ""); ("b", JNull)]%string)))
     = {[dataset_destination_dir maker]}
       ∪ dirs (processed [("a", JStr ""); ("b", JNull)]%string).
Proof.
  apply (make_all_ignored simple_env maker
           (processed [("a", JStr ""); ("b", JNull)]%string) 2).
  - reflexivity.
  - vm_compute. reflexivity.
Defined.

(** ** Construction of a data-backed sample *)

Example init_caller_heap :
  exists s h,
    __init__ (VRef 2%positive) (VRef 4%positive) (VRef 5%positive) VNone
      caller_heap = Some (s, h)
    /\ o_timestamps s <> VRef 4%positive
    /\ contents h (o_timestamps s)
       = Some [SObj (OList [VFloat 10.5; VFloat 11]%Q)].
Proof. eexists _, _. split; [vm_compute; reflexivity|]. by vm_compute. Qed.
Lemma copy_alloc (h : gmap loc object) (l : loc) (o : object) :
  h !! l = Some o ->
  copy (VRef l) h = Some (VRef (fresh (dom h)), <[fresh (dom h) := o]> h).
Proof. intros Hl. simpl. by rewrite Hl. Qed.

Lemma fresh_None (h : gmap loc object) : h !! fresh (dom h) = None.
Proof. apply not_elem_of_dom, is_fresh. Qed.

Lemma look_insert_ne (h : gmap loc object) (l : loc) (o : object) (v : value) :
  v <> VRef l -> look (<[l := o]> h) v = look h v.
Proof.
  destruct v as [| | |l']; try done. intros Hne. simpl.
  rewrite lookup_insert_ne; [done|congruence].
Qed.

(** Writing to the object at [l] is not seen through a list at another
    location none of whose items refers to [l]. *)
Lemma contents_insert_frame (h : gmap loc object) (l l' : loc) (o : object) :
  l <> l' -> VRef l ∉ items_at h l' ->
  contents (<[l := o]> h) (VRef l') = contents h (VRef l').
Proof.
  intros Hne Hitems. unfold contents, items_at in *.
  rewrite lookup_insert_ne by done.
  destruct (h !! l') as [[items|]|]; try done. f_equal.
  apply map_ext_in. intros v Hv. apply look_insert_ne.
  intros ->. by apply Hitems, list_elem_of_In.
Qed.

Lemma init_unfold (arrays timestamps ids ofp v1 v2 v3 : value)
    (h h1 h2 h3 : gmap loc object) :
  copy ids h = Some (v1, h1) -> copy arrays h1 = Some (v2, h2) ->
  copy timestamps h2 = Some (v3, h3) ->
  __init__ arrays timestamps ids ofp h
  = Some ({| o_filepaths := if value_truthy h3 ofp then ofp else VNone;
             o_ids := v1; o_arrays := v2; o_timestamps := v3 |}, h3).
Proof.
  intros E1 E2 E3. unfold __init__.
  rewrite E1. simpl. rewrite E2. simpl. by rewrite E3.
Qed.

(** The constructor allocates three new lists holding the items of the
    caller's lists. *)
Lemma init_allocates (la lt li : loc) (oa ot oi : object) (ofp : value)
    (h : gmap loc object) :
  h !! la = Some oa -> h !! lt = Some ot -> h !! li = Some oi ->
  exists l1 l2 l3 fp,
    h !! l1 = None /\ h !! l2 = None /\ h !! l3 = None
    /\ l1 <> l2 /\ l1 <> l3 /\ l2 <> l3
    /\ __init__ (VRef la) (VRef lt) (VRef li) ofp h
       = Some ({| o_filepaths := fp; o_ids := VRef l1; o_arrays := VRef l2;
                  o_timestamps := VRef l3 |},
               <[l3 := ot]> (<[l2 := oa]> (<[l1 := oi]> h))).
Proof.
  intros Ha Ht Hi.
  set (l1 := fresh (dom h)). set (h1 := <[l1 := oi]> h).
  set (l2 := fresh (dom h1)). set (h2 := <[l2 := oa]> h1).
  set (l3 := fresh (dom h2)).
  pose proof (fresh_None h) as F1. pose proof (fresh_None h1) as F2.
  pose proof (fresh_None h2) as F3. fold l1 in F1. fold l2 in F2. fold l3 in F3.
  assert (H12 : l1 <> l2).
  { intros E. unfold h1 in F2. by rewrite <- E, lookup_insert_eq in F2. }
  assert (H23 : l2 <> l3).
  { intros E. unfold h2 in F3. by rewrite <- E, lookup_insert_eq in F3. }
  assert (H13 : l1 <> l3).
  { intros E. unfold h2, h1 in F3.
    by rewrite <- E, lookup_insert_ne, lookup_insert_eq in F3. }
  assert (Ha1 : h1 !! la = Some oa).
  { unfold h1. rewrite lookup_insert_ne; [done|]. intros E. congruence. }
  assert (Ht2 : h2 !! lt = Some ot).
  { unfold h2, h1. rewrite !lookup_insert_ne; [done| |]; intros E.
    - rewrite E in F1. congruence.
    - rewrite <- E in Ht. unfold h1 in F2.
      rewrite lookup_insert_ne in F2; [congruence|]. intros E'. congruence. }
  exists l1, l2, l3. eexists. split; [done|].
  split; [unfold h1 in F2; by rewrite lookup_insert_ne in F2|].
  split; [unfold h2, h1 in F3; by rewrite !lookup_insert_ne in F3|].
  do 3 (split; [done|]).
  apply init_unfold with (h1 := h1) (h2 := h2).
  - apply (copy_alloc h li oi Hi).
  - apply (copy_alloc h1 la oa Ha1).
  - apply (copy_alloc h2 lt ot Ht2).
Qed.

(** C7, as the code has it.  The constructor copies the three lists it is
    given, not what they hold: the sample's lists are new objects with the
    very items of the caller's lists, and any later change of the caller's
    arrays list, timestamps list or id list itself (items added, removed or
    replaced) leaves the arrays, timestamps and ids stored in the sample
    unchanged. *)
Theorem init_copies_outer_lists (la lt li : loc) (oa ot oi : object)
    (ofp : value) (h : gmap loc object) :
  h !! la = Some oa -> h !! lt = Some ot -> h !! li = Some oi ->
  exists s h' l1 l2 l3,
    __init__ (VRef la) (VRef lt) (VRef li) ofp h = Some (s, h')
    /\ o_ids s = VRef l1 /\ o_arrays s = VRef l2 /\ o_timestamps s = VRef l3
    /\ h !! l1 = None /\ h !! l2 = None /\ h !! l3 = None
    /\ h' !! l1 = Some oi /\ h' !! l2 = Some oa /\ h' !! l3 = Some ot
    /\ forall l o',
         l ∈ [la; lt; li] ->
         VRef l ∉ items_at h la ++ items_at h lt ++ items_at h li ->
         stored (<[l := o']> h') s = stored h' s.
Proof.
  intros Ha Ht Hi.
  destruct (init_allocates la lt li oa ot oi ofp h Ha Ht Hi)
    as (l1 & l2 & l3 & fp & F1 & F2 & F3 & H12 & H13 & H23 & Hinit).
  eexists _, _, l1, l2, l3. split; [exact Hinit|]. simpl.
  assert (H1 : (<[l3 := ot]> (<[l2 := oa]> (<[l1 := oi]> h))) !! l1 = Some oi)
    by (rewrite lookup_insert_ne, lookup_insert_ne, lookup_insert_eq;
        congruence).
  assert (H2 : (<[l3 := ot]> (<[l2 := oa]> (<[l1 := oi]> h))) !! l2 = Some oa)
    by (rewrite lookup_insert_ne, lookup_insert_eq; congruence).
  assert (H3 : (<[l3 := ot]> (<[l2 := oa]> (<[l1 := oi]> h))) !! l3 = Some ot)
    by by rewrite lookup_insert_eq.
  do 9 (split; [done|]).
  intros l o' Hl Hitems.
  assert (Hdom : is_Some (h !! l)).
  { rewrite !elem_of_cons in Hl. destruct Hl as [->|[->|[->|Hl]]]; eauto.
    by apply not_elem_of_nil in Hl. }
  assert (Hne : l <> l1 /\ l <> l2 /\ l <> l3).
  { destruct Hdom as [o Ho]. repeat split; intros ->; congruence. }
  destruct Hne as (N1 & N2 & N3).
  rewrite !not_elem_of_app in Hitems. destruct Hitems as (Ia & It & Ii).
  unfold items_at in Ia, It, Ii.
  rewrite Ha in Ia. rewrite Ht in It. rewrite Hi in Ii.
  unfold stored. cbn [o_arrays o_timestamps o_ids].
  rewrite (contents_insert_frame _ l l2 o'), (contents_insert_frame _ l l3 o'),
    (contents_insert_frame _ l l1 o'); try done; unfold items_at.
  all: first [by rewrite H1 | by rewrite H2 | by rewrite H3].
Qed.

Lemma init_copies_outer_lists_witness :
  exists s h' l1 l2 l3,
    __init__ (VRef 2%positive) (VRef 4%positive) (VRef 5%positive) VNone
      caller_heap = Some (s, h')
    /\ o_ids s = VRef l1 /\ o_arrays s = VRef l2 /\ o_timestamps s = VRef l3
    /\ caller_heap !! l1 = None /\ caller_heap !! l2 = None
    /\ caller_heap !! l3 = None
    /\ h' !! l1 = Some (OList [VStr "0"])
    /\ h' !! l2 = Some (OList [VRef 1%positive])
    /\ h' !! l3 = Some (OList [VRef 3%positive])
    /\ forall l o',
         l ∈ [2%positive; 4%positive; 5%positive] ->
         VRef l ∉ items_at caller_heap 2%positive
                  ++ items_at caller_heap 4%positive
                  ++ items_at caller_heap 5%positive ->
         stored (<[l := o']> h') s = stored h' s.
Proof.
  apply (init_copies_outer_lists 2%positive 4%positive 5%positive
           (OList [VRef 1%positive]) (OList [VRef 3%positive])
           (OList [VStr "0"]) VNone caller_heap); reflexivity.
Defined.

(** C7, as stated, fails on the elements: after the construction the
    caller changes the first timestamp of its inner timestamp list (the
    object at location 3, an item of the caller's timestamps list), or a
    temperature of its array (location 1), and the sample sees the change. *)
Lemma init_shares_elements :
  exists s h',
    __init__ (VRef 2%positive) (VRef 4%positive) (VRef 5%positive) VNone
      caller_heap = Some (s, h')
    /\ VRef 3%positive ∈ items_at caller_heap 4%positive
    /\ stored h' s
       = (Some [SObj (OArray [ [[20]]; [[21]] ]%Q)],
          Some [SObj (OList [VFloat 10.5; VFloat 11]%Q)],
          Some [SVal (VStr "0")])
    /\ stored (<[3%positive := OList [VFloat 99; VFloat 11]%Q]> h') s
       = (Some [SObj (OArray [ [[20]]; [[21]] ]%Q)],
          Some [SObj (OList [VFloat 99; VFloat 11]%Q)],
          Some [SVal (VStr "0")])
    /\ stored (<[3%positive := OList [VFloat 99; VFloat 11]%Q]> h') s
       <> stored h' s
    /\ stored (<[1%positive := OArray [ [[0]]; [[21]] ]%Q]> h') s
       <> stored h' s.
Proof.
  eexists _, _. split; [vm_compute; reflexivity|].
  split; [vm_compute; by left|]. by vm_compute.
Qed.
(** ** The txt codec *)

Example field_examples :
  Txt.field 5.25 = "525 "%string /\ Txt.field 36.6 = "3660 "%string
  /\ Txt.field (-5.25) = "-525 "%string /\ Txt.field 0 = "000 "%string
  /\ Txt.field 123.45 = "1234 "%string /\ Txt.field (-12.34) = "-123 "%string.
Proof. repeat split. Qed.

Example write_read_2x2 :
  Txt.write_np2txt fraction_text [ [[1; 2]; [3; 4]] ]%Q [0.5]%Q
  = ("HTPA32x32d" +:+ Txt.nl +:+ "200 100 400 300 t: 5/10" +:+ Txt.nl)%string
  /\ Txt.txt2np fraction_text 2
       (Txt.write_np2txt fraction_text [ [[1; 2]; [3; 4]] ]%Q [0.5]%Q)
     = Some ([ [[100 * (1 # 100); 200 * (1 # 100)];
                [300 * (1 # 100); 400 * (1 # 100)]] ]%Q, [0.5]%Q).
Proof. split; vm_compute; reflexivity. Qed.

Lemma prefix_empty (s : string) : String.prefix EmptyString s = true.
Proof. by destruct s. Qed.

Lemma split_char_cons (a c : ascii) (r : string) :
  Str.split (String a EmptyString) (String c r)
  = if ascii_dec a c then EmptyString :: Str.split (String a EmptyString) r
    else Str.cons_head c (Str.split (String a EmptyString) r).
Proof.
  unfold Str.split.
  change (Str.split_from (String a EmptyString) 0 (String c r))
    with (if String.prefix (String a EmptyString) (String c r)
          then EmptyString :: Str.split_from (String a EmptyString) 0 r
          else Str.cons_head c (Str.split_from (String a EmptyString) 0 r)).
  rewrite prefix_cons. destruct (ascii_dec a c); [|done].
  by rewrite prefix_empty.
Qed.

Lemma free_of_cons (a c : ascii) (r : string) :
  Txt.free_of a (String c r) = true <-> a <> c /\ Txt.free_of a r = true.
Proof.
  simpl. rewrite andb_true_iff, negb_true_iff, Ascii.eqb_neq. done.
Qed.

Lemma free_of_app (a : ascii) (s r : string) :
  Txt.free_of a (s +:+ r) = Txt.free_of a s && Txt.free_of a r.
Proof.
  induction s as [|c s IH]; [done|].
  change (String c s +:+ r) with (String c (s +:+ r)).
  simpl. by rewrite IH, andb_assoc.
Qed.

Lemma split_char_free (a : ascii) (s : string) :
  Txt.free_of a s = true -> Str.split (String a EmptyString) s = [s].
Proof.
  induction s as [|c s IH]; [done|].
  intros [Hne Hs]%free_of_cons. rewrite split_char_cons.
  destruct (ascii_dec a c); [done|]. by rewrite IH.
Qed.

Lemma split_char_app (a : ascii) (s r : string) :
  Txt.free_of a s = true ->
  Str.split (String a EmptyString) (s +:+ String a r)
  = s :: Str.split (String a EmptyString) r.
Proof.
  induction s as [|c s IH].
  - intros _. change (EmptyString +:+ String a r) with (String a r).
    rewrite split_char_cons. by destruct (ascii_dec a a).
  - intros [Hne Hs]%free_of_cons.
    change (String c s +:+ String a r) with (String c (s +:+ String a r)).
    rewrite split_char_cons. destruct (ascii_dec a c); [done|].
    by rewrite IH.
Qed.

Lemma string_app_assoc (a b c : string) : (a +:+ b) +:+ c = a +:+ (b +:+ c).
Proof.
  induction a as [|x a IH]; [done|].
  change (String x ((a +:+ b) +:+ c) = String x (a +:+ (b +:+ c))).
  by rewrite IH.
Qed.

(** Pieces free of the separator, each followed by it, are the pieces that
    [split] finds. *)
Lemma split_char_cat (a : ascii) (ws : list string) (last : string) :
  Forall (fun w => Txt.free_of a w = true) ws ->
  Txt.free_of a last = true ->
  Str.split (String a EmptyString)
    (Txt.cat (map (fun w => w +:+ String a EmptyString) ws) +:+ last)
  = ws ++ [last].
Proof.
  intros Hws Hlast. induction Hws as [|w ws Hw _ IH]; simpl.
  - by apply split_char_free.
  - rewrite !string_app_assoc.
    change (String a EmptyString +:+ ?x) with (String a x).
    by rewrite split_char_app, IH.
Qed.


Lemma round_half_even_near (q : Q) :
  (inject_Z (Txt.round_half_even q) - (1 # 2) <= q
   /\ q <= inject_Z (Txt.round_half_even q) + (1 # 2))%Q.
Proof.
  unfold Txt.round_half_even.
  pose proof (Qfloor_le q) as Hlo. pose proof (Qlt_floor q) as Hhi.
  rewrite inject_Z_plus in Hhi.
  change (inject_Z 1) with 1%Q in Hhi.
  set (f := Qfloor q) in *.
  destruct (Np.Qltb (q - inject_Z f) (1 # 2)) eqn:E1.
  { apply Qltb_lt in E1. split; lra. }
  assert (H1 : ~ (q - inject_Z f < 1 # 2)%Q).
  { intros H. apply Qltb_lt in H. congruence. }
  apply Qnot_lt_le in H1.
  destruct (Np.Qltb (1 # 2) (q - inject_Z f)) eqn:E2.
  { rewrite inject_Z_plus. change (inject_Z 1) with 1%Q. split; lra. }
  assert (H2 : ~ (1 # 2 < q - inject_Z f)%Q).
  { intros H. apply Qltb_lt in H. congruence. }
  apply Qnot_lt_le in H2.
  destruct (Z.even f); [split; lra|].
  rewrite inject_Z_plus. change (inject_Z 1) with 1%Q. split; lra.
Qed.

Lemma round_half_even_bounds (q : Q) (N : Z) :
  (0 <= q)%Q -> (q <= inject_Z N)%Q ->
  (0 <= Txt.round_half_even q <= N)%Z.
Proof.
  intros H0 HN. destruct (round_half_even_near q) as [Hlo Hhi].
  set (z := Txt.round_half_even q) in *. split.
  - assert (H : (inject_Z (-1) < inject_Z z)%Q).
    { change (inject_Z (-1)) with (-1)%Q. lra. }
    rewrite <- Zlt_Qlt in H. lia.
  - assert (H : (inject_Z z < inject_Z (N + 1))%Q).
    { rewrite inject_Z_plus. change (inject_Z 1) with 1%Q. lra. }
    rewrite <- Zlt_Qlt in H. lia.
Qed.

Lemma words_ok :
  forallb (word_ok false) (map Z.of_nat (seq 0 (100 * 100)))
  && forallb (word_ok true) (map Z.of_nat (seq 0 (10 * 100))) = true.
Proof. vm_compute. reflexivity. Qed.

Lemma word_ok_range (negative : bool) (c : Z) :
  (0 <= c <= if negative then 999 else 9999)%Z -> word_ok negative c = true.
Proof.
  intros [Hc0 Hc]. pose proof words_ok as H.
  apply andb_true_iff in H as [Hp Hn].
  rewrite forallb_forall in Hp, Hn.
  assert (Hin : forall n, (c < Z.of_nat n)%Z ->
            In c (map Z.of_nat (seq 0 n))).
  { intros n Hlt. apply in_map_iff. exists (Z.to_nat c).
    split; [lia|]. apply in_seq. lia. }
  destruct negative; [apply Hn|apply Hp]; apply Hin; lia.
Qed.

(** A temperature between -9.99 and 99.99 fits its field: what is read
    back is the temperature rounded to hundredths. *)
Lemma word_in_range (val : Q) :
  in_txt_range val ->
  Txt.free_of " " (word_of val) = true
  /\ Txt.free_of Txt.newline (word_of val) = true
  /\ Txt.parse_int (word_of val) = Some (quantize val)
  /\ (Qabs (read_back val - val) <= 1 # 200)%Q.
Proof.
  intros [Hlo Hhi]. unfold word_of, read_back.
  set (c := Txt.round_half_even (Qabs val * 100)).
  destruct (round_half_even_near (Qabs val * 100)) as [Hn1 Hn2]. fold c in Hn1, Hn2.
  assert (Hc : (0 <= c <= if Np.Qltb val 0 then 999 else 9999)%Z
               /\ (Qabs val == if Np.Qltb val 0 then - val else val)%Q).
  { destruct (Np.Qltb val 0) eqn:E.
    - apply Qltb_lt in E. assert (Ha : (Qabs val == - val)%Q)
        by (apply Qabs_neg; lra).
      split; [|done]. apply round_half_even_bounds.
      + rewrite Ha. lra.
      + rewrite Ha. change (inject_Z 999) with 999%Q. lra.
    - assert (E' : (0 <= val)%Q).
      { apply Qnot_lt_le. intros H. apply Qltb_lt in H. congruence. }
      assert (Ha : (Qabs val == val)%Q) by by apply Qabs_pos.
      split; [|done]. apply round_half_even_bounds.
      + rewrite Ha. lra.
      + rewrite Ha. change (inject_Z 9999) with 9999%Q. lra. }
  destruct Hc as [Hc Ha].
  pose proof (word_ok_range _ _ Hc) as Hok. unfold word_ok in Hok.
  apply andb_true_iff in Hok as [Hok Hparse].
  apply andb_true_iff in Hok as [Hsp Hnl].
  split; [done|]. split; [done|].
  unfold quantize. fold c.
  destruct (Txt.parse_int (word (Np.Qltb val 0) c)) as [z|]; [|done].
  apply Z.eqb_eq in Hparse. subst z. split; [done|].
  apply Qabs_Qle_condition.
  destruct (Np.Qltb val 0).
  - rewrite inject_Z_opp. rewrite Ha in Hn1, Hn2. split; lra.
  - rewrite Ha in Hn1, Hn2. split; lra.
Qed.


(** ** Transposition of rectangular arrays *)

Lemma nth_map_seq {A} (F : nat -> A) (n i : nat) (d : A) :
  i < n -> nth i (map F (seq 0 n)) d = F i.
Proof.
  intros Hi. rewrite nth_lookup. change (map F (seq 0 n)) with (F <$> seq 0 n).
  by rewrite list_lookup_fmap, lookup_seq_lt.
Qed.

Lemma nth_map_in {A B} (f : A -> B) (l : list A) (d : A) (d' : B) (j : nat) :
  j < length l -> nth j (map f l) d' = f (nth j l d).
Proof.
  intros Hj. rewrite (nth_indep _ d' (f d)) by by rewrite length_map.
  apply map_nth.
Qed.

Lemma map_nth_seq (r : list Q) :
  map (fun j => nth j r 0%Q) (seq 0 (length r)) = r.
Proof.
  apply (nth_ext _ _ 0%Q 0%Q).
  - by rewrite length_map, length_seq.
  - intros i Hi. rewrite length_map, length_seq in Hi.
    by rewrite nth_map_seq.
Qed.

Lemma transpose_length (m : list (list Q)) :
  length (Txt.transpose m) = Txt.width m.
Proof. unfold Txt.transpose. by rewrite length_map, length_seq. Qed.

Lemma transpose_rows (m : list (list Q)) :
  Forall (fun r => length r = length m) (Txt.transpose m).
Proof.
  unfold Txt.transpose. apply Forall_forall. intros r Hr.
  apply list_elem_of_In, in_map_iff in Hr as (j & <- & _).
  by rewrite length_map.
Qed.

Lemma width_rows (m : list (list Q)) (w : nat) :
  m <> [] -> Forall (fun r => length r = w) m -> Txt.width m = w.
Proof. destruct m as [|r m]; [done|]. intros _ H. by inversion H. Qed.

Lemma width_transpose (m : list (list Q)) :
  0 < Txt.width m -> Txt.width (Txt.transpose m) = length m.
Proof.
  intros Hw. unfold Txt.transpose.
  destruct (Txt.width m) as [|w]; [lia|]. simpl. by rewrite length_map.
Qed.

Lemma transpose_involutive (m : list (list Q)) (w : nat) :
  0 < w -> m <> [] -> Forall (fun r => length r = w) m ->
  Txt.transpose (Txt.transpose m) = m.
Proof.
  intros Hw Hne Hrows. pose proof (width_rows m w Hne Hrows) as Hwidth.
  unfold Txt.transpose at 1. rewrite width_transpose by lia.
  apply (nth_ext _ _ [] []).
  { by rewrite length_map, length_seq. }
  intros i Hi. rewrite length_map, length_seq in Hi.
  rewrite nth_map_seq by done. unfold Txt.transpose.
  rewrite map_map, Hwidth.
  assert (Hr : length (nth i m []) = w).
  { rewrite Forall_forall in Hrows. apply Hrows, list_elem_of_In, nth_In. lia. }
  rewrite <- (map_nth_seq (nth i m [])) at 1. rewrite Hr.
  apply map_ext. intros j.
  by rewrite (nth_map_in (fun r => nth j r 0%Q) m []).
Qed.

Lemma transpose_map (f : Q -> Q) (m : list (list Q)) :
  Forall (fun r => length r = Txt.width m) m ->
  Txt.transpose (map (map f) m) = map (map f) (Txt.transpose m).
Proof.
  intros Hrows. unfold Txt.transpose.
  assert (Hw : Txt.width (map (map f) m) = Txt.width m).
  { destruct m; [done|]. simpl. by rewrite length_map. }
  rewrite Hw, !map_map. apply map_ext_in. intros j Hj.
  apply in_seq in Hj. rewrite !map_map. apply map_ext_in. intros r Hr.
  apply nth_map_in. rewrite Forall_forall in Hrows.
  rewrite (Hrows r) by by apply list_elem_of_In. lia.
Qed.

Lemma chunks_concat (n : nat) (X : list (list Q)) :
  Forall (fun r => length r = n) X ->
  Txt.chunks n (length X) (concat X) = X.
Proof.
  intros H. induction H as [|r X Hr _ IH]; simpl; [done|].
  subst n. by rewrite take_app_length, drop_app_length, IH.
Qed.

Lemma concat_length_rows (n : nat) (X : list (list Q)) :
  Forall (fun r => length r = n) X -> length (concat X) = length X * n.
Proof.
  intros H. induction H as [|r X Hr _ IH]; simpl; [done|].
  rewrite length_app, Hr, IH. lia.
Qed.

(** What [write_np2txt] writes of a square frame: its rows, each one
    reversed. *)
Lemma flatten_rot90 (n : nat) (m : list (list Q)) :
  0 < n -> square n m ->
  Txt.flatten_F (Txt.rot90 m) = concat (map (@rev Q) m).
Proof.
  intros Hn [Hlen Hrows]. unfold Txt.flatten_F, Txt.rot90.
  rewrite (transpose_involutive _ n); [done|done| |].
  - destruct m; [simpl in Hlen; lia|done].
  - apply Forall_forall. intros r Hr.
    apply list_elem_of_In, in_map_iff in Hr as (r' & <- & Hin).
    rewrite length_rev. rewrite Forall_forall in Hrows.
    by apply Hrows, list_elem_of_In.
Qed.

(** What [txt2np] makes of the numbers of a line that [write_np2txt]
    wrote for a square frame. *)
Lemma reshape_rot90_back (n : nat) (m : list (list Q)) (g s : Q -> Q) :
  0 < n -> square n m ->
  exists frame,
    Txt.reshape_F n (map g (concat (map (@rev Q) m))) = Some frame
    /\ Txt.rot90_back (map (map s) frame) = map (map (fun v => s (g v))) m.
Proof.
  intros Hn [Hlen Hrows].
  assert (HX : Forall (fun r => length r = n) (map (map g) (map (@rev Q) m))).
  { apply Forall_forall. intros r Hr.
    apply list_elem_of_In, in_map_iff in Hr as (r1 & <- & Hr).
    apply in_map_iff in Hr as (r2 & <- & Hr).
    rewrite length_map, length_rev. rewrite Forall_forall in Hrows.
    by apply Hrows, list_elem_of_In. }
  assert (HXlen : length (map (map g) (map (@rev Q) m)) = n)
    by by rewrite !length_map.
  assert (HXne : map (map g) (map (@rev Q) m) <> [])
    by (destruct m; [simpl in Hlen; lia|done]).
  assert (Hflat : map g (concat (map (@rev Q) m))
                  = concat (map (map g) (map (@rev Q) m))).
  { by rewrite concat_map. }
  unfold Txt.reshape_F. rewrite Hflat.
  assert (Hsize : length (concat (map (map g) (map (@rev Q) m))) = n * n).
  { by rewrite (concat_length_rows n), HXlen. }
  rewrite Hsize, Nat.eqb_refl. eexists. split; [done|].
  rewrite <- HXlen at 2. rewrite chunks_concat by done.
  unfold Txt.rot90_back.
  rewrite transpose_map.
  - rewrite (transpose_involutive _ n) by done.
    rewrite !map_map. apply map_ext. intros r.
    by rewrite !map_rev, rev_involutive, map_map.
  - rewrite width_transpose, HXlen.
    + eapply Forall_impl; [apply transpose_rows|]. intros r Hr. by rewrite <- HXlen.
    + rewrite (width_rows _ n); done.
Qed.

(** ** Lines *)

Lemma cat_app (l1 l2 : list string) :
  Txt.cat (l1 ++ l2) = Txt.cat l1 +:+ Txt.cat l2.
Proof.
  induction l1 as [|x l1 IH]; [done|].
  change (Txt.cat ((x :: l1) ++ l2)) with (x +:+ Txt.cat (l1 ++ l2)).
  change (Txt.cat (x :: l1)) with (x +:+ Txt.cat l1).
  by rewrite IH, string_app_assoc.
Qed.

Lemma string_app_empty_r (s : string) : s +:+ EmptyString = s.
Proof.
  induction s as [|c s IH]; [done|].
  change (String c (s +:+ EmptyString) = String c s). by rewrite IH.
Qed.

Lemma free_of_cat (a : ascii) (ws : list string) :
  Forall (fun w => Txt.free_of a w = true) ws ->
  Txt.free_of a (Txt.cat ws) = true.
Proof.
  intros H. induction H as [|w ws Hw _ IH]; [done|].
  change (Txt.cat (w :: ws)) with (w +:+ Txt.cat ws).
  by rewrite free_of_app, Hw, IH.
Qed.

Lemma write_line_body (F : FloatText) (step : list (list Q)) (t : Q) :
  Txt.write_line F step t = line_body F step t +:+ Txt.nl.
Proof. unfold Txt.write_line, line_body. by rewrite !string_app_assoc. Qed.

Lemma fields_words (vals : list Q) :
  Txt.cat (map Txt.field vals)
  = Txt.cat (map (fun w => w +:+ " ") (map word_of vals)).
Proof. by rewrite map_map. Qed.

Lemma line_body_free (F : FloatText) (step : list (list Q)) (t : Q) :
  Forall in_txt_range (Txt.flatten_F step) -> float_text_ok F t ->
  Txt.free_of Txt.newline (line_body F step t) = true.
Proof.
  intros Hvals (_ & _ & Hnl). unfold line_body.
  rewrite !free_of_app, Hnl, free_of_cat; [done|].
  apply Forall_forall. intros w Hw.
  apply list_elem_of_In, in_map_iff in Hw as (v & <- & Hv).
  rewrite Forall_forall in Hvals.
  destruct (word_in_range v) as (_ & Hw & _); [by apply Hvals, list_elem_of_In|].
  change (Txt.field v) with (word_of v +:+ " ").
  by rewrite free_of_app, Hw.
Qed.

(** The pieces that [line.split(" ")] finds in a written line. *)
Lemma split_line (F : FloatText) (step : list (list Q)) (t : Q) :
  Forall in_txt_range (Txt.flatten_F step) -> float_text_ok F t ->
  Str.split " " (Txt.write_line F step t)
  = map word_of (Txt.flatten_F step) ++ ["t:"; str_float F t +:+ Txt.nl]%string.
Proof.
  intros Hvals (_ & Hsp & _). unfold Txt.write_line.
  set (vals := Txt.flatten_F step) in *.
  assert (E : (Txt.cat (map Txt.field vals) +:+ "t: " +:+ str_float F t +:+ Txt.nl
               = Txt.cat (map (fun w => w +:+ " ") (map word_of vals ++ ["t:"]))
                 +:+ (str_float F t +:+ Txt.nl))%string).
  { rewrite map_app, cat_app, fields_words, !string_app_assoc. done. }
  rewrite E.
  rewrite (split_char_cat " " (map word_of vals ++ ["t:"]%string)).
  - by rewrite <- app_assoc.
  - apply Forall_app. split; [|by repeat constructor].
    apply Forall_forall. intros w Hw.
    apply list_elem_of_In, in_map_iff in Hw as (v & <- & Hv).
    rewrite Forall_forall in Hvals.
    by destruct (word_in_range v) as (Hw & _);
      [by apply Hvals, list_elem_of_In|].
  - by rewrite free_of_app, Hsp.
Qed.

Lemma parse_words (vals : list Q) :
  Forall in_txt_range vals ->
  mapM Txt.parse_int (map word_of vals) = Some (map quantize vals).
Proof.
  intros H. apply mapM_Some.
  induction H as [|v vals Hv _ IH]; simpl; constructor; [|done].
  by destruct (word_in_range v Hv) as (_ & _ & Hp & _).
Qed.

Lemma read_line_steps (F : FloatText) (n : nat) (line : string)
    (ws : list string) (zs : list Z) (frame : list (list Q)) (t : Q) :
  take (n ^ 2) (Str.split " " line) = ws ->
  mapM Txt.parse_int ws = Some zs ->
  Txt.reshape_F n (map inject_Z zs) = Some frame ->
  float_of_str F (List.last (Str.split " " line) EmptyString) = Some t ->
  Txt.read_line F n line
  = Some (map (map (fun v => v * (1 # 100))%Q) frame, t).
Proof.
  intros H1 H2 H3 H4. unfold Txt.read_line.
  rewrite H1, H2. cbn [mbind option_bind].
  rewrite H3. cbn [mbind option_bind]. by rewrite H4.
Qed.

(** A written line of a square frame in range is read as the frame turned
    back, with every temperature rounded to hundredths. *)
Lemma read_write_line (F : FloatText) (n : nat) (m : list (list Q)) (t : Q) :
  0 < n -> square n m -> Forall (Forall in_txt_range) m ->
  float_text_ok F t ->
  exists frame,
    Txt.read_line F n (Txt.write_line F (Txt.rot90 m) t) = Some (frame, t)
    /\ Txt.rot90_back frame = map (map read_back) m.
Proof.
  intros Hn Hsq Hrange Hok.
  pose proof (flatten_rot90 n m Hn Hsq) as Hflat.
  assert (Hvals : Forall in_txt_range (concat (map (@rev Q) m))).
  { apply Forall_concat, Forall_forall. intros r Hr.
    apply list_elem_of_In, in_map_iff in Hr as (r' & <- & Hin).
    apply Forall_rev. rewrite Forall_forall in Hrange.
    by apply Hrange, list_elem_of_In. }
  assert (Hlen : length (map word_of (concat (map (@rev Q) m))) = n ^ 2).
  { destruct Hsq as [Hl Hrows]. rewrite length_map, (concat_length_rows n).
    - rewrite length_map, Hl. simpl. lia.
    - apply Forall_forall. intros r Hr.
      apply list_elem_of_In, in_map_iff in Hr as (r' & <- & Hin).
      rewrite length_rev. rewrite Forall_forall in Hrows.
      by apply Hrows, list_elem_of_In. }
  destruct (reshape_rot90_back n m (fun v => inject_Z (quantize v))
              (fun v => v * (1 # 100))%Q Hn Hsq) as (frame & Hre & Hback).
  exists (map (map (fun v => v * (1 # 100))%Q) frame). split; [|exact Hback].
  pose proof (split_line F (Txt.rot90 m) t) as Hsplit.
  rewrite Hflat in Hsplit. specialize (Hsplit Hvals Hok).
  apply read_line_steps with (ws := map word_of (concat (map (@rev Q) m)))
                             (zs := map quantize (concat (map (@rev Q) m))).
  - rewrite Hsplit. by apply take_app_length'.
  - by apply parse_words.
  - by rewrite map_map.
  - rewrite Hsplit.
    rewrite (app_assoc _ ["t:"%string] [(str_float F t +:+ Txt.nl)%string]).
    rewrite last_last. by destruct Hok as (Hf & _).
Qed.


(** ** Files *)

(** The lines read from a text written line by line. *)
Lemma readlines_written (head : string) (bodies : list string) :
  Txt.free_of Txt.newline head = true ->
  Forall (fun b => Txt.free_of Txt.newline b = true) bodies ->
  Txt.readlines (head +:+ Txt.nl
                 +:+ Txt.cat (map (fun b => b +:+ Txt.nl) bodies))
  = map (fun b => b +:+ Txt.nl) (head :: bodies).
Proof.
  intros Hhead Hbodies. unfold Txt.readlines.
  assert (E : Str.split Txt.nl
                (head +:+ Txt.nl +:+ Txt.cat (map (fun b => b +:+ Txt.nl) bodies))
              = (head :: bodies) ++ [EmptyString]).
  { change (head +:+ Txt.nl +:+ ?r) with (head +:+ String Txt.newline r).
    rewrite (split_char_app Txt.newline) by done.
    rewrite <- (string_app_empty_r (Txt.cat _)).
    by rewrite (split_char_cat Txt.newline). }
  rewrite E, removelast_last, last_last. simpl. by rewrite app_nil_r.
Qed.

Lemma lines_bodies (F : FloatText) (frames : list (list (list Q)))
    (timestamps : list Q) :
  map (fun '(step, t) => Txt.write_line F step t) (zip frames timestamps)
  = map (fun b => b +:+ Txt.nl)
      (map (fun '(step, t) => line_body F step t) (zip frames timestamps)).
Proof.
  rewrite map_map. apply map_ext. intros [step t]. apply write_line_body.
Qed.

(** All the lines of a written array are read back. *)
Lemma read_write_lines (F : FloatText) (n : nat) (array : list frame)
    (timestamps : list Q) :
  0 < n -> length array = length timestamps ->
  Forall (square n) array ->
  Forall (Forall (Forall in_txt_range)) array ->
  Forall (float_text_ok F) timestamps ->
  exists rows,
    mapM (Txt.read_line F n)
      (map (fun '(step, t) => Txt.write_line F step t)
         (zip (map Txt.rot90 array) timestamps)) = Some rows
    /\ map Txt.rot90_back (map fst rows) = map (map (map read_back)) array
    /\ map snd rows = timestamps
    /\ Forall (fun b => Txt.free_of Txt.newline b = true)
         (map (fun '(step, t) => line_body F step t)
            (zip (map Txt.rot90 array) timestamps)).
Proof.
  intros Hn Hlen Hsq. revert timestamps Hlen.
  induction Hsq as [|m array Hm _ IH]; intros timestamps Hlen Hrange Hok.
  - exists []. by destruct timestamps.
  - destruct timestamps as [|t timestamps]; [done|].
    apply Forall_cons in Hrange as [Hr Hrange].
    apply Forall_cons in Hok as [Ht Hok].
    destruct (IH timestamps) as (rows & Hrows & Hback & Hts & Hfree);
      [by injection Hlen|done|done|].
    destruct (read_write_line F n m t Hn Hm Hr Ht) as (frame & Hread & Hframe).
    exists ((frame, t) :: rows). split; [|split; [|split]].
    + apply mapM_Some. apply mapM_Some in Hrows. by constructor.
    + simpl. by rewrite Hframe, Hback.
    + simpl. by rewrite Hts.
    + constructor; [|done]. apply line_body_free; [|done].
      rewrite (flatten_rot90 n) by done.
      apply Forall_concat, Forall_forall. intros r Hr'.
      apply list_elem_of_In, in_map_iff in Hr' as (r' & <- & Hin).
      apply Forall_rev. rewrite Forall_forall in Hr.
      by apply Hr, list_elem_of_In.
Qed.

Lemma txt_write_read (F : FloatText) (n : nat) (array : list frame)
    (timestamps : list Q) :
  0 < n -> array <> [] -> length array = length timestamps ->
  Forall (square n) array ->
  Forall (Forall (Forall in_txt_range)) array ->
  Forall (float_text_ok F) timestamps ->
  Txt.txt2np F n (Txt.write_np2txt F array timestamps)
  = Some (map (map (map read_back)) array, timestamps).
Proof.
  intros Hn Hne Hlen Hsq Hrange Hok.
  destruct (read_write_lines F n array timestamps Hn Hlen Hsq Hrange Hok)
    as (rows & Hrows & Hback & Hts & Hfree).
  unfold Txt.txt2np, Txt.write_np2txt.
  rewrite lines_bodies, readlines_written by done.
  change (tl (map ?f (?h :: ?l))) with (map f l).
  rewrite <- lines_bodies, Hrows. cbn [mbind option_bind].
  rewrite Hts. destruct (map fst rows) as [|fr frs] eqn:E.
  - destruct array; [done|]. by destruct rows.
  - by rewrite Hback.
Qed.



Lemma repeat_rows (v : Q) (P : Q -> Prop) :
  P v -> Forall (Forall P) (repeat (repeat v 32) 32).
Proof.
  intros Hv. apply Forall_forall. intros r Hr.
  apply list_elem_of_In, repeat_spec in Hr as ->.
  apply Forall_forall. intros x Hx.
  by apply list_elem_of_In, repeat_spec in Hx as ->.
Qed.

Lemma repeat_square (v : Q) : square 32 (repeat (repeat v 32) 32).
Proof.
  split; [apply repeat_length|]. apply Forall_forall. intros r Hr.
  apply list_elem_of_In, repeat_spec in Hr as ->. apply repeat_length.
Qed.




(** * Further properties of the code *)

(** ** The matcher on one sequence and on equal timestamps *)

(** X1. A single sequence is its own reference: [match_timesteps] returns
    the identity indices for it, whatever its length, and raises when it is
    given no sequence at all. *)
Theorem match_timesteps_single (ts : list Q) :
  match_timesteps [ts] = Some [seq 0 (length ts)]
  /\ match_timesteps [] = None.
Proof. split; reflexivity. Qed.



(** ** Frame durations *)





(** X4. With fewer than two timestamps there is no difference to repeat:
    unless a last duration other than 0 is given, the call raises; a last
    duration of 0 is taken as not given. *)
Theorem frame_durations_too_short (timestamps : list Q)
    (last_frame_duration : option Q) :
  length timestamps <= 1 ->
  timestamps2frame_durations timestamps last_frame_duration
  = match last_frame_duration with
    | Some d => if Qeq_bool d 0 then None else Some [d]
    | None => None
    end.
Proof.
  intros Hlen. unfold timestamps2frame_durations.
  assert (E : map (fun '(x_t1, x_t2) => (x_t2 - x_t1)%Q)
                (zip timestamps (tl timestamps)) = []).
  { destruct timestamps as [|t [|t' rest]]; [done|done|simpl in Hlen; lia]. }
  rewrite E. destruct last_frame_duration as [d|]; [|done].
  by destruct (Qeq_bool d 0).
Qed.

Lemma frame_durations_too_short_witness :
  timestamps2frame_durations [1.5%Q] (Some 0%Q) = None.
Proof. apply (frame_durations_too_short [1.5%Q] (Some 0%Q)). simpl. lia. Defined.

(** ** Resampling *)

Lemma resample_reindex {A} (xs : list (list A)) (idxs : list (list nat)) :
  idxs <> [] -> length xs = length idxs ->
  Forall2 (fun x ix => Forall (fun k => k < length x) ix) xs idxs ->
  resample_np_tuples xs (Some idxs) None
  = Some (reindex idxs (length xs) xs).
Proof.
  intros Hne Hlen Hrange. unfold resample_np_tuples.
  destruct idxs as [|ix0 idxs']; [done|].
  set (idxs := ix0 :: idxs') in *.
  rewrite Hlen, Nat.eqb_refl. apply mapM_Some.
  apply Forall2_same_length_lookup_2.
  { rewrite length_zip_with, reindex_length. lia. }
  intros i [x ix] y Hi Hy. apply lookup_zip_with_Some in Hi
    as (x' & ix' & [= <- <-] & Hx & Hix).
  rewrite reindex_lookup, Hx in Hy. simpl in Hy.
  pose proof (Forall2_lookup_lr _ _ _ _ _ _ Hrange Hx Hix) as Hr.
  destruct (take_indices_spec x ix Hr) as (x'' & Hx'' & _).
  rewrite Hix in Hy. simpl in Hy. rewrite Hx'' in Hy. simpl in Hy.
  case_decide; [congruence|]. apply lookup_lt_Some in Hix. simpl in Hix. lia.
Qed.

(** X5. Resampling by the indices of the matcher is what alignment does:
    for a sample of at least one view, [resample_timestamps] and
    [resample_np_tuples] with the index lists of [match_timesteps] return,
    without any position out of range, the timestamps and arrays that
    [align_timesteps] leaves in the sample. *)
Theorem resample_by_match_is_align (s : TPA_Sample_from_data) :
  sample_wf s ->
  exists idxs s0,
    match_timesteps (timestamps s) = Some idxs
    /\ align_timesteps false s = Some s0
    /\ resample_timestamps (timestamps s) (Some idxs) None
       = Some (timestamps s0)
    /\ resample_np_tuples (arrays s) (Some idxs) None = Some (arrays s0).
Proof.
  intros Hwf.
  destruct (align_timesteps_keep s Hwf) as (idxs & n & Hm & Hn & H0 & _ & _).
  destruct Hwf as (Hne & Hall & Hids & Harr).
  destruct (match_timesteps_shape _ Hne Hall)
    as (idxs' & n' & Hm' & _ & _ & Hrange).
  assert (idxs' = idxs) as -> by congruence.
  assert (Hl : length (timestamps s) = length idxs) by by eapply Forall2_length.
  assert (Hla : length (arrays s) = length (timestamps s))
    by by eapply Forall2_length.
  assert (Hidx : idxs <> []).
  { intros ->. destruct (timestamps s); done. }
  eexists idxs, _. split; [done|]. split; [exact H0|]. simpl. split.
  - unfold resample_timestamps. by apply resample_reindex.
  - apply resample_reindex; [done|lia|].
    apply Forall2_same_length_lookup. split; [lia|].
    intros i a ix Ha Hix.
    destruct (Forall2_lookup_l _ _ _ _ _ Harr Ha) as (ts & Hts & Hlen).
    rewrite Hlen. by eapply (Forall2_lookup_lr _ _ _ _ _ _ Hrange).
Qed.

Lemma resample_by_match_is_align_witness :
  exists idxs s0,
    match_timesteps (timestamps two_views) = Some idxs
    /\ align_timesteps false two_views = Some s0
    /\ resample_timestamps (timestamps two_views) (Some idxs) None
       = Some (timestamps s0)
    /\ resample_np_tuples (arrays two_views) (Some idxs) None
       = Some (arrays s0).
Proof.
  apply (resample_by_match_is_align two_views).
  split; [discriminate|]. split; [repeat constructor; discriminate|].
  split; [reflexivity|]. repeat constructor.
Defined.

Lemma range0_in_range (stop i : nat) (step : nat) :
  0 < step -> i < (stop + step - 1) / step <-> i * step < stop.
Proof.
  intros Hs. split.
  - intros Hi.
    assert (H : step * ((stop + step - 1) / step) <= stop + step - 1)
      by apply Nat.Div0.mul_div_le.
    nia.
  - intros Hi. apply (Nat.lt_le_trans _ (S i)); [lia|].
    apply Nat.div_le_lower_bound; lia.
Qed.

Lemma range0_lookup (stop : nat) (step : Z) (j : nat) :
  (0 < step)%Z ->
  range0 stop step !! j
  = if decide (j * Z.to_nat step < stop) then Some (j * Z.to_nat step)
    else None.
Proof.
  intros Hs. unfold range0. destruct (Z.ltb_spec 0 step) as [_|]; [|lia].
  change (map ?f ?l) with (f <$> l). rewrite list_lookup_fmap.
  case_decide as Hj.
  - rewrite lookup_seq_lt; [done|]. apply range0_in_range; [lia|done].
  - rewrite lookup_seq_ge; [done|].
    apply Nat.nlt_ge. intros Hlt. apply Hj. apply range0_in_range in Hlt; lia.
Qed.

(** X6. Resampling with a positive step never reads out of range: every
    sequence is replaced by its elements at the positions 0, step,
    2 step, ...; with step 1 nothing changes. *)
Theorem resample_step_spec (timestamps : list (list Q)) (step : Z) :
  (0 < step)%Z ->
  exists resampled,
    resample_timestamps timestamps None (Some step) = Some resampled
    /\ length resampled = length timestamps
    /\ (forall i ts ts' j, timestamps !! i = Some ts ->
          resampled !! i = Some ts' ->
          ts' !! j = if decide (j * Z.to_nat step < length ts)
                     then ts !! (j * Z.to_nat step) else None)
    /\ (step = 1%Z -> resampled = timestamps).
Proof.
  intros Hs. unfold resample_timestamps, resample_np_tuples.
  destruct (Z.eqb_spec step 0) as [->|_]; [lia|].
  assert (Hall : forall ts : list Q,
            exists ts', Np.take_indices ts (range0 (length ts) step) = Some ts'
              /\ forall j, ts' !! j
                   = if decide (j * Z.to_nat step < length ts)
                     then ts !! (j * Z.to_nat step) else None).
  { intros ts. destruct (take_indices_spec ts (range0 (length ts) step))
      as (ts' & Hts' & Hlen & Hget).
    { apply Forall_lookup. intros j k Hk. rewrite range0_lookup in Hk by done.
      case_decide; [|done]. by injection Hk as <-. }
    exists ts'. split; [done|]. intros j.
    pose proof (range0_lookup (length ts) step j Hs) as Hj.
    case_decide.
    - by apply Hget.
    - apply lookup_ge_None. rewrite Hlen. by apply lookup_ge_None. }
  destruct (mapM (fun array : list Q =>
              Np.take_indices array (range0 (length array) step)) timestamps)
    as [resampled|] eqn:E.
  2:{ apply mapM_None, Exists_exists in E as (ts & _ & Hnone).
      destruct (Hall ts) as (ts' & Hts' & _). congruence. }
  exists resampled. split; [done|]. apply mapM_Some in E.
  split; [symmetry; by eapply Forall2_length|]. split.
  - intros i ts ts' j Hts Hts'.
    pose proof (Forall2_lookup_lr _ _ _ _ _ _ E Hts Hts') as Hi.
    cbv beta in Hi. destruct (Hall ts) as (ts'' & H1 & H2).
    assert (ts'' = ts') as -> by congruence. apply H2.
  - intros ->. symmetry. apply list_eq_Forall2.
    eapply Forall2_impl; [exact E|]. intros ts ts' Hi. cbv beta in Hi.
    destruct (Hall ts) as (ts'' & H1 & H2).
    assert (ts'' = ts') as -> by congruence.
    apply list_eq. intros j. rewrite H2.
    change (Z.to_nat 1) with 1. rewrite Nat.mul_1_r.
    case_decide; [done|]. apply lookup_ge_None. lia.
Qed.

Lemma resample_step_spec_witness :
  exists resampled,
    resample_timestamps [ts1; ts2] None (Some 2%Z) = Some resampled
    /\ length resampled = length [ts1; ts2]
    /\ (forall i ts ts' j, [ts1; ts2] !! i = Some ts ->
          resampled !! i = Some ts' ->
          ts' !! j = if decide (j * Z.to_nat 2 < length ts)
                     then ts !! (j * Z.to_nat 2) else None)
    /\ (2%Z = 1%Z -> resampled = [ts1; ts2]).
Proof. apply (resample_step_spec [ts1; ts2] 2). lia. Defined.

(** ** The filters of the file managers *)

Lemma list_remove_In (x y : string) (l l' : list string) :
  Py.list_remove y l = Some l' -> In x l' -> In x l.
Proof.
  revert l'. induction l as [|z l IH]; intros l'; simpl; [done|].
  destruct (String.eqb y z); [intros [= <-]; auto|].
  destruct (Py.list_remove y l) as [l''|]; simpl; [|done].
  intros [= <-] [->|Hin]; [by left|]. right. by apply (IH l'').
Qed.

Lemma list_remove_In_other (x y : string) (l l' : list string) :
  Py.list_remove y l = Some l' -> x <> y -> In x l -> In x l'.
Proof.
  revert l'. induction l as [|z l IH]; intros l'; simpl; [done|].
  destruct (String.eqb_spec y z) as [->|Hne].
  - intros [= <-] Hxz [->|Hin]; done.
  - destruct (Py.list_remove y l) as [l''|]; simpl; [|done].
    intros [= <-] Hxy [->|Hin]; [by left|]. right. by apply (IH l'').
Qed.

Lemma list_remove_Some_In (y : string) (l l' : list string) :
  Py.list_remove y l = Some l' -> In y l.
Proof.
  revert l'. induction l as [|z l IH]; intros l'; simpl; [done|].
  destruct (String.eqb_spec y z) as [->|Hne]; [by left|].
  destruct (Py.list_remove y l) as [l''|]; simpl; [|done].
  intros _. right. by apply (IH l'').
Qed.

Lemma list_remove_None (y : string) (l : list string) :
  ~ In y l -> Py.list_remove y l = None.
Proof.
  intros Hy. destruct (Py.list_remove y l) as [l'|] eqn:E; [|done].
  by apply list_remove_Some_In in E.
Qed.

(** The removing loop only takes out elements on which the condition
    holds, and adds none. *)
Lemma for_remove_keeps (cond : string -> option bool) (fuel i : nat)
    (l r : list string) :
  Py.for_remove cond fuel i l = Some r ->
  (forall x, In x r -> In x l)
  /\ (forall x, cond x = Some false -> In x l -> In x r).
Proof.
  revert i l. induction fuel as [|fuel IH]; intros i l; simpl.
  { intros [= <-]. done. }
  destruct (l !! i) as [y|]; [|by intros [= <-]].
  destruct (cond y) as [[|]|] eqn:Ey; simpl; [| |done].
  - destruct (Py.list_remove y l) as [l'|] eqn:Hrem; simpl; [|done].
    intros H. destruct (IH _ _ H) as [Hsub Hkeep]. split.
    + intros x Hx. eapply list_remove_In; eauto.
    + intros x Hx Hin. apply Hkeep; [done|].
      eapply list_remove_In_other; [done| |done]. congruence.
  - apply IH.
Qed.

(** X7. The label filter drops no prefix that has a label which is an
    integer other than 0, and adds none: whatever it returns is made of
    candidates, and holds every candidate with such a label. *)
Theorem filter_labels_keeps_valid (labels : dict)
    (candidates kept : list string) :
  filter_labels labels candidates = Some kept ->
  (forall p, In p kept -> In p candidates)
  /\ (forall p v, In p candidates -> Dict.get labels p = Some v ->
        truthy v = true -> type_is_int v = true -> In p kept).
Proof.
  unfold filter_labels, Py.for_each_remove.
  destruct (Py.for_remove _ (length candidates) 0 candidates) as [l1|] eqn:E1;
    [simpl|done].
  destruct (Py.for_remove _ (length l1) 0 l1) as [l2|] eqn:E2; [simpl|done].
  intros E3.
  destruct (for_remove_keeps _ _ _ _ _ E1) as [S1 K1].
  destruct (for_remove_keeps _ _ _ _ _ E2) as [S2 K2].
  destruct (for_remove_keeps _ _ _ _ _ E3) as [S3 K3].
  split; [auto|].
  intros p v Hin Hget Htruthy Hint.
  apply K3; [by rewrite Hget; simpl; rewrite Hint|].
  apply K2; [by rewrite Hget; simpl; rewrite Htruthy|].
  apply K1; [|done]. unfold Dict.mem. by rewrite Hget.
Qed.

Lemma filter_labels_keeps_valid_witness :
  (forall p, In p ["b"]%string -> In p ["a"; "b"]%string)
  /\ (forall p v, In p ["a"; "b"]%string ->
        Dict.get [("a", JStr "x"); ("b", JInt 3)]%string p = Some v ->
        truthy v = true -> type_is_int v = true -> In p ["b"]%string).
Proof.
  apply (filter_labels_keeps_valid [("a", JStr "x"); ("b", JInt 3)]%string
           ["a"; "b"]%string ["b"]%string).
  reflexivity.
Defined.

Lemma remove_missing_loop_raises (prefixes : list string) (vn : nat)
    (keys acc : list string) (k : string) :
  In k keys -> Py.count k prefixes < vn -> ~ In k acc ->
  remove_missing_loop prefixes vn keys acc = None.
Proof.
  revert acc. induction keys as [|k0 keys IH]; intros acc Hk Hlow Hacc;
    simpl; [done|].
  destruct (Nat.ltb_spec (Py.count k0 prefixes) vn) as [Hlow0|Hhigh].
  - destruct (Py.list_remove k0 acc) as [acc'|] eqn:Hrem; simpl; [|done].
    destruct Hk as [->|Hk].
    + by apply list_remove_Some_In in Hrem.
    + apply IH; [done|done|]. intros Hin. apply Hacc.
      eapply list_remove_In; eauto.
  - destruct Hk as [->|Hk]; [lia|]. by apply IH.
Qed.

(** X8. [_remove_missing_views] raises ([ValueError] of [list.remove])
    whenever the file list holds a prefix with fewer occurrences than views
    that is not among the candidates. *)
Theorem remove_missing_views_raises (view_IDs prefixes candidates : list string)
    (p : string) :
  In p prefixes -> Py.count p prefixes < length view_IDs ->
  ~ In p candidates ->
  _remove_missing_views view_IDs prefixes candidates = None.
Proof.
  intros Hp Hlow Hc. unfold _remove_missing_views.
  apply (remove_missing_loop_raises _ _ _ _ p); [|done|done].
  by apply counter_keys_In.
Qed.

Lemma remove_missing_views_raises_witness :
  _remove_missing_views ["0"; "1"] ["A"; "A"; "B"] ["A"]%string = None.
Proof.
  apply (remove_missing_views_raises ["0"; "1"] ["A"; "A"; "B"] ["A"] "B")%string.
  - simpl. auto.
  - vm_compute. lia.
  - simpl. intros [H|[]]. discriminate.
Defined.

(** ** What [make] does to the file system *)

Lemma string_app_inv_head (a b1 b2 : string) :
  a +:+ b1 = a +:+ b2 -> b1 = b2.
Proof.
  induction a as [|c a IH]; [done|].
  change (String c (a +:+ b1) = String c (a +:+ b2) -> b1 = b2).
  intros [= H]. by apply IH.
Qed.

Lemma path_join_inj (a b1 b2 : string) :
  String.prefix "/" b1 = false -> String.prefix "/" b2 = false ->
  path_join a b1 = path_join a b2 -> b1 = b2.
Proof.
  intros H1 H2. unfold path_join. rewrite H1, H2.
  destruct (String.eqb a ""); [done|].
  destruct (String.eqb _ ""); intros H; apply string_app_inv_head in H;
    [done|]. by apply (string_app_inv_head "/").
Qed.

Lemma copy2_grows (src dst : string) (w w' : world) (p : string) :
  copy2 src dst w = Return w' ->
  is_Some (files w !! p) -> is_Some (files w' !! p).
Proof.
  unfold copy2. destruct (files w !! src) as [c|]; [|done].
  intros [= <-]. simpl. intros Hp.
  destruct (decide (dst = p)) as [->|Hne].
  - rewrite lookup_insert_eq. by eexists.
  - by rewrite lookup_insert_ne.
Qed.

Lemma copy2_dirs (src dst : string) (w w' : world) :
  copy2 src dst w = Return w' -> dirs w' = dirs w.
Proof.
  unfold copy2. destruct (files w !! src) as [c|]; [|done].
  by intros [= <-].
Qed.

Lemma copy_all_grows (pairs : list (string * string)) (w : world) (p : string) :
  is_Some (files w !! p) -> is_Some (files (snd (copy_all pairs w)) !! p).
Proof.
  revert w. induction pairs as [|[src dst] pairs IH]; intros w Hp; simpl;
    [done|].
  destruct (copy2 src dst w) as [w'|e] eqn:E; [|done].
  apply IH. by eapply copy2_grows.
Qed.

Lemma ensure_path_exists_files (path : string) (w : world) :
  files (ensure_path_exists path w) = files w.
Proof. unfold ensure_path_exists. by case_decide. Qed.

(** X9. [make] never removes a file: whatever it returns or raises, every
    path that held a file before the call holds one after it. *)
Theorem make_never_removes (E : Env) (self : TPA_Dataset_Maker) (w : world)
    (p : string) :
  is_Some (files w !! p) ->
  is_Some (files (snd (make E self w)) !! p).
Proof.
  intros Hp. unfold make.
  destruct (negb (configured self)); [done|].
  set (w1 := ensure_path_exists (dataset_destination_dir self) w).
  assert (Hp1 : is_Some (files w1 !! p))
    by (unfold w1; by rewrite ensure_path_exists_files).
  destruct (make_candidates E self w1) as [[cands n0]|e]; [|done].
  destruct (Z.eqb _ _); [done|].
  match goal with |- context [copy_all ?ps w1] =>
    pose proof (copy_all_grows ps w1 p Hp1) as Hc;
    destruct (copy_all ps w1) as [[b|e] w2] end; [|done].
  simpl in Hc.
  assert (Hn : is_Some (files (_write_nfo self w2) !! p)).
  { unfold _write_nfo. simpl.
    destruct (decide (path_join (dataset_destination_dir self) TPA_NFO_FN = p))
      as [->|Hne].
    - rewrite lookup_insert_eq. by eexists.
    - by rewrite lookup_insert_ne. }
  unfold _copy_labels_file.
  destruct (copy2 _ _ (_write_nfo self w2)) as [w3|e] eqn:E3; [|done].
  simpl. by eapply copy2_grows.
Qed.

Lemma make_never_removes_witness :
  is_Some (files (snd (make simple_env maker
                         (processed [("a", JInt 1); ("b", JInt 2)]%string)))
           !! "processed/aID0.txt"%string).
Proof.
  apply (make_never_removes simple_env maker
           (processed [("a", JInt 1); ("b", JInt 2)]%string)
           "processed/aID0.txt"%string).
  vm_compute. by eexists.
Defined.

(** X10. The stage marker tells the truth: when [make] returns true, the
    destination holds [tpa.nfo] with [DATASET_PREPARED] set to 1 and a
    labels file; when it returns false, no file has been written. *)
Theorem make_marker_on_success (E : Env) (self : TPA_Dataset_Maker) (w : world) :
  (fst (make E self w) = Return true ->
   files (snd (make E self w))
     !! path_join (dataset_destination_dir self) TPA_NFO_FN
   = Some (Json (JObj [(MADE_OK_KEY, JInt 1)]))
   /\ is_Some (files (snd (make E self w))
                 !! path_join (dataset_destination_dir self) "labels.json"))
  /\ (fst (make E self w) = Return false ->
      files (snd (make E self w)) = files w).
Proof.
  unfold make.
  destruct (negb (configured self)); [done|].
  set (w1 := ensure_path_exists (dataset_destination_dir self) w).
  destruct (make_candidates E self w1) as [[cands n0]|e]; [|done].
  destruct (Z.eqb _ _).
  { split; [done|]. intros _. apply ensure_path_exists_files. }
  match goal with |- context [copy_all ?ps w1] =>
    destruct (copy_all ps w1) as [[b|e] w2] end; [|done].
  unfold _copy_labels_file, copy2.
  destruct (files (_write_nfo self w2) !! labels_filepath self) as [c|];
    [|done].
  simpl. split; [|done]. intros _. split.
  - rewrite lookup_insert_ne, lookup_insert_eq; [done|].
    intros H. by apply path_join_inj in H.
  - rewrite lookup_insert_eq. by eexists.
Qed.

Lemma make_marker_on_success_witness :
  files (snd (make simple_env maker
                (processed [("a", JInt 1); ("b", JInt 2)]%string)))
    !! path_join (dataset_destination_dir maker) TPA_NFO_FN
  = Some (Json (JObj [(MADE_OK_KEY, JInt 1)]))
  /\ is_Some (files (snd (make simple_env maker
                            (processed [("a", JInt 1); ("b", JInt 2)]%string)))
                !! path_join (dataset_destination_dir maker) "labels.json").
Proof.
  apply (proj1 (make_marker_on_success simple_env maker
                  (processed [("a", JInt 1); ("b", JInt 2)]%string))).
  vm_compute. reflexivity.
Defined.

(** ** The txt codec beyond one clean round trip *)

Lemma round_half_even_Z (q : Q) (z : Z) :
  (q == inject_Z z)%Q -> Txt.round_half_even q = z.
Proof.
  intros Hq. destruct (round_half_even_near q) as [Hlo Hhi].
  set (r := Txt.round_half_even q) in *.
  assert (H1 : (inject_Z (r - 1) < inject_Z z)%Q).
  { unfold Z.sub. rewrite inject_Z_plus, inject_Z_opp.
    change (inject_Z 1) with 1%Q. lra. }
  assert (H2 : (inject_Z z < inject_Z (r + 1))%Q).
  { rewrite inject_Z_plus. change (inject_Z 1) with 1%Q. lra. }
  rewrite <- Zlt_Qlt in H1, H2. lia.
Qed.

Lemma round_half_even_nonneg (q : Q) :
  (0 <= q)%Q -> (0 <= Txt.round_half_even q)%Z.
Proof.
  intros H0. destruct (round_half_even_near q) as [Hlo Hhi].
  set (r := Txt.round_half_even q) in *.
  assert (H : (inject_Z (-1) < inject_Z r)%Q).
  { change (inject_Z (-1)) with (-1)%Q. lra. }
  rewrite <- Zlt_Qlt in H. lia.
Qed.

(** The hundredths of a temperature that was read are the hundredths it
    was read from. *)
Lemma quantize_read_back (val : Q) : quantize (read_back val) = quantize val.
Proof.
  unfold read_back. set (z := quantize val).
  assert (Hz : forall y : Z, quantize (inject_Z y * (1 # 100)) = y).
  { intros y. unfold quantize.
    destruct (Np.Qltb (inject_Z y * (1 # 100)) 0) eqn:E.
    - apply Qltb_lt in E.
      assert (Hy : (inject_Z y < inject_Z 0)%Q)
        by (change (inject_Z 0) with 0%Q; lra).
      rewrite <- Zlt_Qlt in Hy.
      rewrite (round_half_even_Z _ (- y)); [lia|].
      rewrite Qabs_neg by lra. rewrite inject_Z_opp. lra.
    - assert (E' : (0 <= inject_Z y * (1 # 100))%Q).
      { apply Qnot_lt_le. intros H. apply Qltb_lt in H. congruence. }
      apply round_half_even_Z. rewrite Qabs_pos by done. lra. }
  apply Hz.
Qed.

Lemma read_back_idemp (val : Q) : read_back (read_back val) = read_back val.
Proof. unfold read_back at 1 3. by rewrite quantize_read_back. Qed.

Lemma quantize_range (val : Q) :
  in_txt_range val -> (-999 <= quantize val <= 9999)%Z.
Proof.
  intros [Hlo Hhi]. unfold quantize.
  destruct (Np.Qltb val 0) eqn:E.
  - apply Qltb_lt in E.
    assert (Ha : (Qabs val == - val)%Q) by (apply Qabs_neg; lra).
    destruct (round_half_even_bounds (Qabs val * 100) 999); [| |lia].
    + rewrite Ha. lra.
    + rewrite Ha. change (inject_Z 999) with 999%Q. lra.
  - assert (E' : (0 <= val)%Q).
    { apply Qnot_lt_le. intros H. apply Qltb_lt in H. congruence. }
    assert (Ha : (Qabs val == val)%Q) by by apply Qabs_pos.
    destruct (round_half_even_bounds (Qabs val * 100) 9999); [| |lia].
    + rewrite Ha. lra.
    + rewrite Ha. change (inject_Z 9999) with 9999%Q. lra.
Qed.

Lemma read_back_in_range (val : Q) :
  in_txt_range val -> in_txt_range (read_back val).
Proof.
  intros H. apply quantize_range in H as [Hlo Hhi]. unfold read_back.
  rewrite Zle_Qle in Hlo, Hhi.
  change (inject_Z (-999)) with (-999)%Q in Hlo.
  change (inject_Z 9999) with 9999%Q in Hhi.
  split; lra.
Qed.

Lemma read_back_array_in_range (array : list frame) :
  Forall (Forall (Forall in_txt_range)) array ->
  Forall (Forall (Forall in_txt_range)) (map (map (map read_back)) array).
Proof.
  intros H. apply Forall_fmap. eapply Forall_impl; [exact H|]. intros m Hm.
  apply Forall_fmap. eapply Forall_impl; [exact Hm|]. intros r Hr.
  apply Forall_fmap. eapply Forall_impl; [exact Hr|]. intros v Hv.
  by apply read_back_in_range.
Qed.

Lemma read_back_array_square (n : nat) (array : list frame) :
  Forall (square n) array ->
  Forall (square n) (map (map (map read_back)) array).
Proof.
  intros H. apply Forall_fmap. eapply Forall_impl; [exact H|].
  intros m [Hl Hrows]. split; [by rewrite length_map|].
  apply Forall_fmap. eapply Forall_impl; [exact Hrows|].
  intros r Hr. simpl. by rewrite length_map.
Qed.

Lemma read_back_array_idemp (array : list frame) :
  map (map (map read_back)) (map (map (map read_back)) array)
  = map (map (map read_back)) array.
Proof.
  rewrite map_map. apply map_ext. intros m.
  rewrite map_map. apply map_ext. intros r.
  rewrite map_map. apply map_ext. intros v. apply read_back_idemp.
Qed.

(** X11. What [txt2np] reads from a file of [write_np2txt] is a fixed point
    of the codec: written again with the same timestamps and read again, it
    comes back exactly, for 32 by 32 frames of temperatures between -9.99
    and 99.99. *)
Theorem txt_resave_exact (F : FloatText) (array : list frame)
    (timestamps : list Q) :
  array <> [] -> length array = length timestamps ->
  Forall (square 32) array ->
  Forall (Forall (Forall in_txt_range)) array ->
  Forall (float_text_ok F) timestamps ->
  exists array',
    Txt.txt2np F 32 (Txt.write_np2txt F array timestamps)
    = Some (array', timestamps)
    /\ Txt.txt2np F 32 (Txt.write_np2txt F array' timestamps)
       = Some (array', timestamps).
Proof.
  intros Hne Hlen Hsq Hrange Hok.
  exists (map (map (map read_back)) array). split.
  - apply txt_write_read; try done. lia.
  - rewrite <- (read_back_array_idemp array) at 2.
    apply txt_write_read; try done.
    + lia.
    + by destruct array.
    + by rewrite length_map.
    + by apply read_back_array_square.
    + by apply read_back_array_in_range.
Qed.

Lemma txt_resave_exact_witness :
  exists array',
    Txt.txt2np fraction_text 32
      (Txt.write_np2txt fraction_text warm_array [0.5]%Q)
    = Some (array', [0.5]%Q)
    /\ Txt.txt2np fraction_text 32
         (Txt.write_np2txt fraction_text array' [0.5]%Q)
       = Some (array', [0.5]%Q).
Proof.
  apply (txt_resave_exact fraction_text warm_array [0.5]%Q).
  - discriminate.
  - reflexivity.
  - constructor; [apply repeat_square|constructor].
  - constructor; [|constructor]. apply repeat_rows. split; discriminate.
  - constructor; [|constructor]. repeat split.
Defined.

Lemma write_np2txt_take (F : FloatText) (array : list frame)
    (timestamps : list Q) :
  Txt.write_np2txt F array timestamps
  = Txt.write_np2txt F (take (length timestamps) array)
      (take (length array) timestamps).
Proof.
  unfold Txt.write_np2txt.
  assert (E : zip (map Txt.rot90 (take (length timestamps) array))
                (take (length array) timestamps)
              = zip (map Txt.rot90 array) timestamps).
  { change (map Txt.rot90 (take ?n array)) with (Txt.rot90 <$> take n array).
    rewrite fmap_take.
    replace (length array) with (length (Txt.rot90 <$> array))
      by apply length_fmap.
    apply (zip_with_take_both pair). }
  by rewrite E.
Qed.

(** X12. [write_np2txt] pairs frames and timestamps with [zip]: when their
    numbers differ, the surplus of the longer one is written nowhere, and
    [txt2np] reads back only the first [k] frames and the first [k]
    timestamps, [k] being the smaller number. *)
Theorem txt_write_read_truncates (F : FloatText) (array : list frame)
    (timestamps : list Q) :
  let k := Nat.min (length array) (length timestamps) in
  0 < k ->
  Forall (square 32) array ->
  Forall (Forall (Forall in_txt_range)) array ->
  Forall (float_text_ok F) timestamps ->
  Txt.txt2np F 32 (Txt.write_np2txt F array timestamps)
  = Some (map (map (map read_back)) (take k array), take k timestamps).
Proof.
  intros k Hk Hsq Hrange Hok. rewrite write_np2txt_take.
  assert (E1 : take (length timestamps) array = take k array).
  { rewrite <- (firstn_all array) at 1. rewrite take_take. f_equal; lia. }
  assert (E2 : take (length array) timestamps = take k timestamps).
  { rewrite <- (firstn_all timestamps) at 1. rewrite take_take. f_equal; lia. }
  rewrite E1, E2. apply txt_write_read.
  - lia.
  - intros E. apply (f_equal length) in E. rewrite length_take in E.
    simpl in E. lia.
  - rewrite !length_take. lia.
  - by apply Forall_take.
  - by apply Forall_take.
  - by apply Forall_take.
Qed.

Lemma txt_write_read_truncates_witness :
  Txt.txt2np fraction_text 32
    (Txt.write_np2txt fraction_text warm_array [0.5; 0.75; 1]%Q)
  = Some (map (map (map read_back)) (take 1 warm_array), take 1 [0.5; 0.75; 1]%Q).
Proof.
  apply (txt_write_read_truncates fraction_text warm_array [0.5; 0.75; 1]%Q).
  - simpl. lia.
  - constructor; [apply repeat_square|constructor].
  - constructor; [|constructor]. apply repeat_rows. split; discriminate.
  - repeat constructor.
Defined.

(** X13. A file of [write_np2txt] without frames holds the header alone,
    and [txt2np] raises on it instead of returning an empty array: this
    happens for an array of no frame (shaped [0, h, w]) and for an empty
    list of timestamps, whatever the array. *)
Theorem txt_no_frames_raises (F : FloatText) (n : nat) (array : list frame)
    (timestamps : list Q) :
  Txt.write_np2txt F [] timestamps = ("HTPA32x32d" +:+ Txt.nl)%string
  /\ Txt.write_np2txt F array [] = ("HTPA32x32d" +:+ Txt.nl)%string
  /\ Txt.txt2np F n (Txt.write_np2txt F [] timestamps) = None
  /\ Txt.txt2np F n (Txt.write_np2txt F array []) = None.
Proof.
  assert (E : Txt.write_np2txt F array [] = ("HTPA32x32d" +:+ Txt.nl)%string).
  { unfold Txt.write_np2txt. by destruct array. }
  rewrite E. repeat split; reflexivity.
Qed.

(** ** File names made from a prefix and a view id *)

Lemma split_char_nonempty (a : ascii) (s : string) :
  Str.split (String a EmptyString) s <> [].
Proof.
  induction s as [|c s IH]; [done|]. rewrite split_char_cons.
  destruct (ascii_dec a c); [done|].
  by destruct (Str.split (String a EmptyString) s).
Qed.

(** A separator between two texts separates their pieces. *)
Lemma split_char_app_sep (a : ascii) (s r : string) :
  Str.split (String a EmptyString) (s +:+ String a r)
  = Str.split (String a EmptyString) s ++ Str.split (String a EmptyString) r.
Proof.
  induction s as [|c s IH].
  - change (EmptyString +:+ String a r) with (String a r).
    rewrite split_char_cons. by destruct (ascii_dec a a).
  - change (String c s +:+ String a r) with (String c (s +:+ String a r)).
    rewrite !split_char_cons, IH.
    destruct (ascii_dec a c); [done|].
    pose proof (split_char_nonempty a s) as Hne.
    by destruct (Str.split (String a EmptyString) s).
Qed.

(** A text without the separator goes on the last piece. *)
Lemma split_char_app_free (a : ascii) (s r : string) :
  Txt.free_of a r = true ->
  Str.split (String a EmptyString) (s +:+ r)
  = removelast (Str.split (String a EmptyString) s)
    ++ [List.last (Str.split (String a EmptyString) s) EmptyString +:+ r].
Proof.
  intros Hr. induction s as [|c s IH].
  - change (EmptyString +:+ r) with r. by rewrite split_char_free.
  - change (String c s +:+ r) with (String c (s +:+ r)).
    rewrite !split_char_cons, IH.
    pose proof (split_char_nonempty a s) as Hs.
    destruct (ascii_dec a c).
    + by destruct (Str.split (String a EmptyString) s) as [|p ps].
    + by destruct (Str.split (String a EmptyString) s) as [|p [|p' ps]].
Qed.

(** [os.path.basename] undoes [os.path.join] on a name without a slash. *)
Lemma basename_path_join (a b : string) :
  Txt.free_of "/" b = true -> basename (path_join a b) = b.
Proof.
  intros Hb. unfold basename, path_join.
  destruct (String.prefix "/" b) eqn:E1.
  { destruct b as [|c b]; [done|]. rewrite prefix_cons in E1.
    apply free_of_cons in Hb as [Hne _]. by destruct (ascii_dec "/" c). }
  destruct (String.eqb a "") eqn:E2; [by rewrite split_char_free|].
  destruct (String.eqb (List.last (Str.split "/" a) EmptyString) "") eqn:E3.
  - apply String.eqb_eq in E3.
    rewrite (split_char_app_free "/") by done. by rewrite last_last, E3.
  - change (a +:+ "/" +:+ b) with (a +:+ String "/" b).
    rewrite (split_char_app_sep "/"), (split_char_free "/" b) by done.
    by rewrite last_last.
Qed.

(** Before the first ["ID"] of a text lies what was put in front of it,
    when that holds no ["ID"] itself. *)
Lemma split_ID_app (s r : string) :
  Str.occurrences_ID s = 0 ->
  Str.split "ID" (s +:+ String "I" (String "D" r)) = s :: Str.split "ID" r.
Proof.
  induction s as [|c s IH]; intros Hocc.
  - change (EmptyString +:+ ?x) with x. apply split_ID_sep.
  - rewrite occurrences_ID_cons in Hocc.
    destruct (String.prefix "ID" (String c s)) eqn:E; [done|].
    change (String c s +:+ ?x) with (String c (s +:+ x)).
    rewrite split_ID_other; [by rewrite IH|].
    rewrite prefix_cons in *. destruct (ascii_dec "I" c); [|done].
    destruct s as [|d s]; [done|].
    change (String d s +:+ ?x) with (String d (s +:+ x)).
    rewrite prefix_cons in *. destruct (ascii_dec "D" d); [|done].
    by rewrite prefix_empty in E.
Qed.

Lemma split_ID_free (s : string) :
  Str.occurrences_ID s = 0 -> Str.split "ID" s = [s].
Proof.
  intros Hocc. pose proof (split_ID_length s) as Hlen.
  pose proof (join_split_ID s) as Hjoin. rewrite Hocc in Hlen.
  destruct (Str.split "ID" s) as [|p [|q ps]]; try done.
  by rewrite <- Hjoin.
Qed.

(** The name that [make_filepaths] gives to a view is taken apart again. *)
Lemma file_name_parts (parent_dir prefix id extension : string) :
  Txt.free_of "/" prefix = true -> Txt.free_of "." prefix = true ->
  Str.occurrences_ID prefix = 0 ->
  Txt.free_of "/" id = true -> Txt.free_of "." id = true ->
  Str.occurrences_ID id = 0 ->
  Txt.free_of "/" extension = true ->
  let fp := path_join parent_dir
              (prefix +:+ "ID" +:+ id +:+ "." +:+ extension) in
  _TPA_get_file_prefix fp = prefix /\ _read_ID fp = id.
Proof.
  intros Hp1 Hp2 Hp3 Hi1 Hi2 Hi3 He fp.
  assert (Hbase : basename fp = prefix +:+ "ID" +:+ id +:+ "." +:+ extension).
  { apply basename_path_join. by rewrite !free_of_app, Hp1, Hi1, He. }
  assert (Hname : remove_extension (basename fp) = prefix +:+ "ID" +:+ id).
  { rewrite Hbase. unfold remove_extension.
    assert (E : prefix +:+ "ID" +:+ id +:+ "." +:+ extension
                = (prefix +:+ "ID" +:+ id) +:+ String "." extension)
      by by rewrite !string_app_assoc.
    rewrite E, (split_char_app "."); [done|].
    by rewrite !free_of_app, Hp2, Hi2. }
  unfold _TPA_get_file_prefix, _read_ID. cbv zeta. rewrite Hname.
  change (prefix +:+ "ID" +:+ id) with (prefix +:+ String "I" (String "D" id)).
  rewrite split_ID_app, split_ID_free by done. done.
Qed.

(** X14. The file paths that [make_filepaths] builds are read back by
    [_read_ID] and [_TPA_get_file_prefix]: when the prefix and the ids hold
    no slash, no dot and no ["ID"], and the extension no slash, every path
    yields its view id and the prefix again, whatever the parent
    directory. *)
Theorem make_filepaths_read_back (self : TPA_Sample_from_data)
    (parent_dir prefix extension : string) :
  Txt.free_of "/" prefix = true -> Txt.free_of "." prefix = true ->
  Str.occurrences_ID prefix = 0 ->
  Txt.free_of "/" extension = true ->
  Forall (fun id => Txt.free_of "/" id = true /\ Txt.free_of "." id = true
                    /\ Str.occurrences_ID id = 0) (ids self) ->
  exists fps,
    filepaths (make_filepaths self parent_dir prefix extension) = Some fps
    /\ map _read_ID fps = ids self
    /\ Forall (fun fp => _TPA_get_file_prefix fp = prefix) fps.
Proof.
  intros Hp1 Hp2 Hp3 He Hids. eexists. split; [reflexivity|].
  induction Hids as [|id l (Hi1 & Hi2 & Hi3) _ [IH1 IH2]]; [by split|].
  destruct (file_name_parts parent_dir prefix id extension) as [H1 H2];
    try done.
  split.
  - cbn [map]. by rewrite H2, IH1.
  - cbn [map]. by constructor.
Qed.

Lemma make_filepaths_read_back_witness :
  exists fps,
    filepaths (make_filepaths two_views "out/" "s1_" "txt") = Some fps
    /\ map _read_ID fps = ids two_views
    /\ Forall (fun fp => _TPA_get_file_prefix fp = "s1_"%string) fps.
Proof.
  apply (make_filepaths_read_back two_views "out/" "s1_" "txt");
    try reflexivity.
  repeat constructor.
Defined.

(** ** Flattening and reshaping frames *)

Lemma infer_dimension_multiple (n k : nat) :
  0 < k -> infer_dimension (n * k) k = Some n.
Proof.
  intros Hk. unfold infer_dimension.
  rewrite Nat.Div0.mod_mul, Nat.div_mul by lia.
  destruct (Nat.eqb_spec k 0); [lia|done].
Qed.

Lemma ravel3_length (a : array3) :
  array3_wf a ->
  Forall (fun r => length r = a_height a * a_width a)
    (map (@concat Q) (a_frames a)).
Proof.
  intros Hwf. apply Forall_fmap. eapply Forall_impl; [exact Hwf|].
  intros f [Hf Hrows]. simpl. by rewrite (concat_length_rows (a_width a)), Hf.
Qed.

(** What [flatten_frames] returns for frames that are not empty: one row
    per frame, holding the rows of the frame one after the other. *)
Lemma flatten_frames_rows (a : array3) :
  array3_wf a -> 0 < a_height a * a_width a ->
  flatten_frames a
  = Some {| a_elements := a_height a * a_width a;
            a_rows := map (@concat Q) (a_frames a) |}.
Proof.
  intros Hwf Hpos. pose proof (ravel3_length a Hwf) as Hlen.
  unfold flatten_frames, ravel3.
  rewrite (concat_length_rows _ _ Hlen), infer_dimension_multiple by done.
  cbn [mbind option_bind]. by rewrite chunks_concat.
Qed.

(** X15. [flatten_frames] turns every frame into one row, and
    [reshape_flattened_frames] gives the array back exactly when the frames
    are square: for frames of another shape it raises or returns an array
    of square frames, never the original. *)
Theorem flatten_reshape_round_trip (a : array3) :
  array3_wf a -> 0 < a_height a * a_width a ->
  exists b,
    flatten_frames a = Some b
    /\ a_elements b = a_height a * a_width a
    /\ a_rows b = map (@concat Q) (a_frames a)
    /\ (reshape_flattened_frames b = Some a <-> a_height a = a_width a).
Proof.
  intros Hwf Hpos. eexists. split; [by apply flatten_frames_rows|].
  split; [done|]. split; [done|]. split.
  - unfold reshape_flattened_frames. cbn [a_elements a_rows].
    destruct (infer_dimension _ _); [|done]. cbn [mbind option_bind].
    intros [= E]. rewrite <- E. done.
  - intros Hsq. pose proof (ravel3_length a Hwf) as Hlen.
    unfold reshape_flattened_frames, ravel2. cbn [a_elements a_rows].
    rewrite <- Hsq in *. rewrite Nat.sqrt_square.
    rewrite (concat_length_rows _ _ Hlen), infer_dimension_multiple by done.
    cbn [mbind option_bind]. rewrite chunks_concat by done.
    destruct a as [h w frames]. cbn [a_height a_width a_frames] in *.
    subst w. f_equal. f_equal. rewrite map_map.
    rewrite <- (map_id frames) at 2. apply map_ext_Forall.
    eapply Forall_impl; [exact Hwf|]. intros f [Hf Hrows]. simpl.
    rewrite <- Hf at 2. by apply chunks_concat.
Qed.

Lemma flatten_reshape_round_trip_witness :
  exists b,
    flatten_frames frames_2x2 = Some b
    /\ a_elements b = 2 * 2
    /\ a_rows b = map (@concat Q) (a_frames frames_2x2)
    /\ (reshape_flattened_frames b = Some frames_2x2 <-> 2 = 2).
Proof.
  apply (flatten_reshape_round_trip frames_2x2).
  - repeat constructor.
  - simpl. lia.
Defined.

(** ** Cropping the centre *)

Lemma slice_bound_le (len : nat) (i : Z) : slice_bound len i <= len.
Proof. unfold slice_bound. destruct (Z.ltb_spec i 0); lia. Qed.

Lemma py_slice_length {A} (l : list A) (start stop : Z) :
  length (py_slice l start stop)
  = slice_bound (length l) stop - slice_bound (length l) start.
Proof.
  unfold py_slice. rewrite length_take, length_drop.
  pose proof (slice_bound_le (length l) stop). lia.
Qed.

(** The length of a slice depends on the length of the sequence only. *)
Lemma py_slice_length_seq {A} (l : list A) (start stop : Z) :
  length (py_slice l start stop)
  = length (py_slice (seq 0 (length l)) start stop).
Proof. by rewrite !py_slice_length, length_seq. Qed.

Lemma py_slice_in_range {A} (l : list A) (start stop : Z) :
  (0 <= start <= stop)%Z -> (stop <= Z.of_nat (length l))%Z ->
  py_slice l start stop
  = take (Z.to_nat (stop - start)) (drop (Z.to_nat start) l).
Proof.
  intros Hs He. unfold py_slice, slice_bound.
  destruct (Z.ltb_spec start 0); [lia|].
  destruct (Z.ltb_spec stop 0); [lia|].
  f_equal; [lia|f_equal; lia].
Qed.

Lemma crop_start_range (size crop : Z) :
  (0 <= crop <= size)%Z ->
  (0 <= size / 2 - crop / 2)%Z
  /\ (size / 2 - crop / 2 + crop <= size)%Z
  /\ (Z.abs ((size - crop - (size / 2 - crop / 2)) - (size / 2 - crop / 2)) <= 1)%Z.
Proof. intros H. Z.div_mod_to_equations. lia. Qed.

Lemma py_slice_crop {A} (l : list A) (crop : Z) :
  (0 <= crop <= Z.of_nat (length l))%Z ->
  let start := (Z.of_nat (length l) / 2 - crop / 2)%Z in
  py_slice l start (start + crop)
  = take (Z.to_nat crop) (drop (Z.to_nat start) l).
Proof.
  intros Hc start.
  destruct (crop_start_range (Z.of_nat (length l)) crop Hc) as (H0 & H1 & _).
  fold start in H0, H1. rewrite py_slice_in_range by lia.
  f_equal. lia.
Qed.

(** X16. For a crop size between 0 and the size of the frames,
    [crop_center] returns frames of exactly that size, cut out of the
    input without moving anything: the element at row [i] and column [j]
    is the input's element at row [start_y + i] and column [start_x + j],
    and the margins left on the two sides of the patch differ by at most
    one row and one column. *)
Theorem crop_center_patch (a : array3) (crop_height crop_width : Z) :
  array3_wf a ->
  (0 <= crop_height <= Z.of_nat (a_height a))%Z ->
  (0 <= crop_width <= Z.of_nat (a_width a))%Z ->
  let start_y := (Z.of_nat (a_height a) / 2 - crop_height / 2)%Z in
  let start_x := (Z.of_nat (a_width a) / 2 - crop_width / 2)%Z in
  let b := crop_center a crop_height crop_width in
  array3_wf b
  /\ Z.of_nat (a_height b) = crop_height
  /\ Z.of_nat (a_width b) = crop_width
  /\ length (a_frames b) = length (a_frames a)
  /\ (forall k i j,
        (Z.of_nat i < crop_height)%Z -> (Z.of_nat j < crop_width)%Z ->
        element b k i j
        = element a k (Z.to_nat start_y + i) (Z.to_nat start_x + j))
  /\ (0 <= start_y)%Z /\ (0 <= start_x)%Z
  /\ (Z.abs ((Z.of_nat (a_height a) - crop_height - start_y) - start_y) <= 1)%Z
  /\ (Z.abs ((Z.of_nat (a_width a) - crop_width - start_x) - start_x) <= 1)%Z.
Proof.
  intros Hwf Hh Hw start_y start_x b.
  destruct (crop_start_range _ _ Hh) as (Hy0 & Hy1 & Hym).
  destruct (crop_start_range _ _ Hw) as (Hx0 & Hx1 & Hxm).
  fold start_y in Hy0, Hy1, Hym. fold start_x in Hx0, Hx1, Hxm.
  assert (Ech : Z.eqb crop_height (-1) = false) by (apply Z.eqb_neq; lia).
  assert (Ecw : Z.eqb crop_width (-1) = false) by (apply Z.eqb_neq; lia).
  assert (Hb : b = {| a_height := Z.to_nat crop_height;
                      a_width := Z.to_nat crop_width;
                      a_frames :=
                        map (fun f =>
                               map (fun r => take (Z.to_nat crop_width)
                                               (drop (Z.to_nat start_x) r))
                                 (take (Z.to_nat crop_height)
                                    (drop (Z.to_nat start_y) f)))
                          (a_frames a) |}).
  { unfold b, crop_center. rewrite Ech, Ecw. fold start_y start_x.
    f_equal.
    - rewrite py_slice_in_range by (rewrite ?length_seq; lia).
      rewrite length_take, length_drop, length_seq. lia.
    - rewrite py_slice_in_range by (rewrite ?length_seq; lia).
      rewrite length_take, length_drop, length_seq. lia.
    - apply map_ext_Forall. eapply Forall_impl; [exact Hwf|].
      intros f [Hf Hrows]. simpl.
      rewrite py_slice_in_range by lia.
      replace (Z.to_nat (start_y + crop_height - start_y))
        with (Z.to_nat crop_height) by lia.
      apply map_ext_Forall.
      apply Forall_take, Forall_drop.
      eapply Forall_impl; [exact Hrows|]. intros r Hr. cbv beta in Hr.
      rewrite py_slice_in_range by lia. f_equal. lia. }
  rewrite Hb. cbn [a_height a_width a_frames].
  split; [|split; [lia|split; [lia|split; [by rewrite length_map|]]]].
  - unfold array3_wf. cbn [a_height a_width a_frames].
    apply Forall_fmap. eapply Forall_impl; [exact Hwf|].
    intros f [Hf Hrows]. simpl. split.
    + rewrite length_map, length_take, length_drop. lia.
    + apply Forall_fmap, Forall_take, Forall_drop.
      eapply Forall_impl; [exact Hrows|]. intros r Hr. cbv beta in Hr.
      unfold compose. rewrite length_take, length_drop. lia.
  - split; [|done]. intros k i j Hi Hj. unfold element.
    cbn [a_frames].
    change (map ?g (a_frames a)) with (g <$> a_frames a).
    rewrite list_lookup_fmap. unfold frame.
    match goal with |- context [fmap _ ?o] => destruct o as [f|] end; [|done].
    cbn [fmap option_fmap option_map mbind option_bind].
    change (map ?g (take ?n ?l)) with (g <$> take n l).
    rewrite list_lookup_fmap, lookup_take_lt, lookup_drop by lia.
    destruct (f !! (Z.to_nat start_y + i)) as [r|]; [|done].
    cbn [fmap option_fmap option_map mbind option_bind].
    by rewrite lookup_take_lt, lookup_drop by lia.
Qed.

Lemma crop_center_patch_witness :
  let b := crop_center frames_3x4 1 2 in
  array3_wf b
  /\ Z.of_nat (a_height b) = 1%Z
  /\ Z.of_nat (a_width b) = 2%Z
  /\ length (a_frames b) = length (a_frames frames_3x4)
  /\ (forall k i j,
        (Z.of_nat i < 1)%Z -> (Z.of_nat j < 2)%Z ->
        element b k i j
        = element frames_3x4 k (Z.to_nat (3 / 2 - 1 / 2) + i)
            (Z.to_nat (4 / 2 - 2 / 2) + j))
  /\ (0 <= 3 / 2 - 1 / 2)%Z /\ (0 <= 4 / 2 - 2 / 2)%Z
  /\ (Z.abs ((3 - 1 - (3 / 2 - 1 / 2)) - (3 / 2 - 1 / 2)) <= 1)%Z
  /\ (Z.abs ((4 - 2 - (4 / 2 - 2 / 2)) - (4 / 2 - 2 / 2)) <= 1)%Z.
Proof.
  apply (crop_center_patch frames_3x4 1 2).
  - repeat constructor.
  - simpl. lia.
  - simpl. lia.
Defined.

Lemma py_slice_all {A} (l : list A) (stop : Z) :
  stop = Z.of_nat (length l) -> py_slice l 0 stop = l.
Proof.
  intros ->. rewrite py_slice_in_range by lia.
  rewrite drop_0, Z.sub_0_r, Nat2Z.id. apply firstn_all.
Qed.

(** X17. Asked for the whole frame, [crop_center] returns its input
    unchanged, both with the size [-1] that stands for the size of the
    input and with that size itself. *)
Theorem crop_center_whole (a : array3) :
  array3_wf a ->
  crop_center a (-1) (-1) = a
  /\ crop_center a (Z.of_nat (a_height a)) (Z.of_nat (a_width a)) = a.
Proof.
  intros Hwf.
  assert (H : forall ch cw,
            (if Z.eqb ch (-1) then Z.of_nat (a_height a) else ch)
            = Z.of_nat (a_height a) ->
            (if Z.eqb cw (-1) then Z.of_nat (a_width a) else cw)
            = Z.of_nat (a_width a) ->
            crop_center a ch cw = a).
  { intros ch cw Hch Hcw. unfold crop_center. rewrite Hch, Hcw.
    rewrite !Z.sub_diag, !Z.add_0_l.
    destruct a as [h w frames]. cbn [a_height a_width a_frames] in *.
    rewrite !py_slice_all by by rewrite length_seq.
    rewrite !length_seq. f_equal.
    rewrite <- (map_id frames) at 2. apply map_ext_Forall.
    eapply Forall_impl; [exact Hwf|]. intros f [Hf Hrows]. simpl in *.
    rewrite py_slice_all by lia.
    rewrite <- (map_id f) at 2. apply map_ext_Forall.
    eapply Forall_impl; [exact Hrows|]. intros r Hr. cbv beta in Hr.
    apply py_slice_all. lia. }
  split; apply H; try done.
  - by destruct (Z.eqb _ _).
  - by destruct (Z.eqb _ _).
Qed.

Lemma crop_center_whole_witness :
  crop_center frames_3x4 (-1) (-1) = frames_3x4
  /\ crop_center frames_3x4 (Z.of_nat (a_height frames_3x4))
       (Z.of_nat (a_width frames_3x4)) = frames_3x4.
Proof. apply (crop_center_whole frames_3x4). repeat constructor. Defined.

Lemma Forall_py_slice {A} (P : A -> Prop) (l : list A) (start stop : Z) :
  Forall P l -> Forall P (py_slice l start stop).
Proof. intros H. unfold py_slice. by apply Forall_take, Forall_drop. Qed.

(** X18. Whatever sizes it is asked for, negative or larger than the
    frames, [crop_center] raises nothing and returns an array whose data
    agree with its shape and whose frames are no larger than those of the
    input; so a size above that of the input is not honoured. *)
Theorem crop_center_never_larger (a : array3) (crop_height crop_width : Z) :
  array3_wf a ->
  let b := crop_center a crop_height crop_width in
  array3_wf b
  /\ a_height b <= a_height a
  /\ a_width b <= a_width a
  /\ length (a_frames b) = length (a_frames a).
Proof.
  intros Hwf b. unfold b, crop_center, array3_wf.
  cbn [a_height a_width a_frames].
  split; [|split; [|split]].
  - apply Forall_fmap. eapply Forall_impl; [exact Hwf|].
    intros f [Hf Hrows]. simpl. split.
    + by rewrite length_map, py_slice_length_seq, Hf.
    + apply Forall_fmap, Forall_py_slice.
      eapply Forall_impl; [exact Hrows|]. intros r Hr. cbv beta in Hr.
      unfold compose. by rewrite py_slice_length_seq, Hr.
  - rewrite py_slice_length, length_seq.
    pose proof (slice_bound_le (a_height a)
                  (Z.of_nat (a_height a) / 2
                   - (if Z.eqb crop_height (-1) then Z.of_nat (a_height a)
                      else crop_height) / 2
                   + (if Z.eqb crop_height (-1) then Z.of_nat (a_height a)
                      else crop_height))). lia.
  - rewrite py_slice_length, length_seq.
    pose proof (slice_bound_le (a_width a)
                  (Z.of_nat (a_width a) / 2
                   - (if Z.eqb crop_width (-1) then Z.of_nat (a_width a)
                      else crop_width) / 2
                   + (if Z.eqb crop_width (-1) then Z.of_nat (a_width a)
                      else crop_width))). lia.
  - by rewrite length_map.
Qed.

Lemma crop_center_never_larger_witness :
  let b := crop_center frames_3x4 7 (-5) in
  array3_wf b
  /\ a_height b <= a_height frames_3x4
  /\ a_width b <= a_width frames_3x4
  /\ length (a_frames b) = length (a_frames frames_3x4).
Proof. apply (crop_center_never_larger frames_3x4 7 (-5)). repeat constructor. Defined.

(** ** Synchronization of the views *)





(** A pair of [combinations2] is an earlier and a later element. *)
Lemma combinations2_lookup {A} (l : list A) (a c : A) :
  (a, c) ∈ combinations2 l
  <-> exists i j, i < j /\ l !! i = Some a /\ l !! j = Some c.
Proof.
  induction l as [|x l IH]; simpl.
  - split; [by intros H%elem_of_nil|]. by intros (i & j & _ & H & _).
  - rewrite elem_of_app, IH. split.
    + intros [H|(i & j & Hij & Hi & Hj)].
      * apply list_elem_of_In, in_map_iff in H as (c' & [= <- <-] & Hin).
        apply list_elem_of_In, list_elem_of_lookup in Hin as [j Hj].
        exists 0, (S j). split; [lia|]. by split.
      * exists (S i), (S j). split; [lia|]. by split.
    + intros (i & j & Hij & Hi & Hj). destruct j as [|j]; [lia|].
      simpl in Hj. destruct i as [|i].
      * left. injection Hi as ->. apply list_elem_of_In, in_map_iff.
        exists c. split; [done|].
        apply list_elem_of_In, list_elem_of_lookup. by exists j.
      * right. exists i, j. split; [lia|]. by split.
Qed.








(** ** Configuration files *)

Lemma dict_get_set (d : dict) (k k' : string) (v : json) :
  Dict.get (Dict.set d k v) k'
  = if String.eqb k' k then Some v else Dict.get d k'.
Proof.
  induction d as [|[k0 v0] d IH]; simpl.
  - by destruct (String.eqb k' k).
  - destruct (String.eqb k k0) eqn:E; simpl.
    + apply String.eqb_eq in E as ->. by destruct (String.eqb k' k0).
    + rewrite IH. destruct (String.eqb k' k0) eqn:E'; [|done].
      apply String.eqb_eq in E' as ->.
      by rewrite String.eqb_sym, E.
Qed.

Lemma dict_mem_set (d : dict) (k k' : string) (v : json) :
  Dict.mem (Dict.set d k v) k' = String.eqb k' k || Dict.mem d k'.
Proof.
  unfold Dict.mem. rewrite dict_get_set. by destruct (String.eqb k' k).
Qed.

Lemma dict_mem_update (d other : dict) (k : string) :
  Dict.mem d k = true -> Dict.mem (dict_update d other) k = true.
Proof.
  unfold dict_update. revert d.
  induction other as [|[k0 v0] other IH]; intros d Hd; [done|].
  simpl. apply IH. rewrite dict_mem_set, Hd. apply orb_true_r.
Qed.

Lemma dict_mem_template (keys : list string) (d : dict) (k : string) :
  In k keys \/ Dict.mem d k = true ->
  Dict.mem (fold_left (fun template key => Dict.set template key (JStr ""))
              keys d) k = true.
Proof.
  revert d. induction keys as [|k0 keys IH]; intros d H; simpl.
  - by destruct H.
  - apply IH. rewrite dict_mem_set.
    destruct H as [[->|H]|H]; [right|by left|right].
    + by rewrite String.eqb_refl.
    + rewrite H. apply orb_true_r.
Qed.

Lemma config_template_mem (keys : list string) (fill_dict : option dict)
    (k : string) :
  In k keys -> Dict.mem (config_template keys fill_dict) k = true.
Proof.
  intros Hk. unfold config_template.
  pose proof (dict_mem_template keys [] k (or_introl Hk)) as H.
  destruct fill_dict as [d|]; [|done].
  destruct (truthy (JObj d)); [|done]. by apply (dict_mem_update _ d).
Qed.

Lemma filter_none {A} (f : A -> bool) (l : list A) :
  (forall x, In x l -> f x = false) -> List.filter f l = [].
Proof.
  induction l as [|x l IH]; intros H; [done|]. simpl.
  rewrite (H x) by by left. apply IH. intros y Hy. apply H. by right.
Qed.

Lemma validate_template (keys : list string) (template : dict) :
  (forall k, In k keys -> Dict.mem template k = true) ->
  _validate_config keys template
  = if both_flags template
    then Raise "MAKE and PREPARE flags cannot be set at the same time to TRUE"
    else Return true.
Proof.
  intros Hmem. unfold _validate_config, both_flags.
  rewrite filter_none by (intros k Hk; by rewrite Hmem).
  cbn [length Nat.eqb negb].
  destruct (Dict.get template "PREPARE") as [p|]; [|done].
  destruct (truthy p); [|by destruct (Dict.get template "MAKE")].
  destruct (Dict.get template "MAKE") as [m|]; [|done].
  by destruct (truthy m).
Qed.

(** X21. A template made by [_generate_config_template] never lacks a
    required key, whatever [fill_dict] holds: [_validate_config] does not
    answer False on it; it raises when the template sets both [PREPARE]
    and [MAKE], and answers True otherwise. *)
Theorem generated_template_validates (keys : list string)
    (output_json_filepath : string) (fill_dict : option dict) (w : world) :
  exists template,
    files (_generate_config_template keys output_json_filepath fill_dict w)
      !! output_json_filepath = Some (Json (JObj template))
    /\ (forall k, In k keys -> Dict.mem template k = true)
    /\ _validate_config keys template <> Return false
    /\ _validate_config keys template
       = if both_flags template
         then Raise "MAKE and PREPARE flags cannot be set at the same time to TRUE"
         else Return true.
Proof.
  exists (config_template keys fill_dict).
  split; [apply lookup_insert_eq|].
  pose proof (fun k => config_template_mem keys fill_dict k) as Hmem.
  split; [exact Hmem|].
  rewrite (validate_template _ _ Hmem).
  split; [|done]. by destruct (both_flags _).
Qed.

(** X22. The [make_config.json] that [TPA_Preparer._write_make_file]
    leaves in the processed directory passes the checks that
    [TPA_Dataset_Maker.config] starts with: no required key is missing,
    [_validate_config] answers True and [MAKE] is set.  It names the
    processed directory and its [labels.json], and leaves the destination
    of the dataset empty for the user to fill in. *)
Theorem written_make_config_accepted (self : Preparer.TPA_Preparer)
    (w : world) :
  let dir := Preparer.processed_destination_dir self in
  exists _json,
    files (Preparer._write_make_file self w)
      !! path_join dir "make_config.json" = Some (Json (JObj _json))
    /\ _validate_config Maker._json_required_keys _json = Return true
    /\ truthy <$> Dict.get _json "MAKE" = Some true
    /\ Dict.get _json "processed_input_dir" = Some (JStr dir)
    /\ Dict.get _json "labels_filepath"
       = Some (JStr (path_join dir "labels.json"))
    /\ Dict.get _json "view_IDs"
       = Some (JList (map JStr (Preparer.view_IDs self)))
    /\ Dict.get _json "tpas_extension"
       = Some (JStr (Preparer.tpas_extension self))
    /\ Dict.get _json "dataset_destination_dir" = Some (JStr "")
    /\ (forall path, path <> path_join dir "make_config.json" ->
          files (Preparer._write_make_file self w) !! path = files w !! path).
Proof.
  intros dir. eexists. split; [apply lookup_insert_eq|].
  repeat (split; [reflexivity|]).
  intros path Hne. unfold Preparer._write_make_file,
    Maker.generate_config_template, _generate_config_template.
  cbn [files]. by rewrite lookup_insert_ne.
Qed.

(** ** The reader and the writer of a file *)

Example tpa_reader_examples :
  tpa_reader "data/s1_ID0.TXT" = Return "txt"%string
  /\ tpa_reader "data/s1_ID0.pkl" = Return "pickle"%string
  /\ tpa_reader "data/s1_ID0" = Raise "IndexError"
  /\ tpa_reader "data/s1_ID0.gif" = Raise "AssertionError".
Proof. repeat split. Qed.

Lemma lower_ascii_slash (c : ascii) :
  Ascii.eqb "/" (lower_ascii c) = Ascii.eqb "/" c.
Proof. destruct c as [[] [] [] [] [] [] [] []]; reflexivity. Qed.

Lemma free_of_lower (s : string) :
  Txt.free_of "/" (lower s) = Txt.free_of "/" s.
Proof.
  induction s as [|c s IH]; [done|].
  change (lower (String c s)) with (String (lower_ascii c) (lower s)).
  change (negb (Ascii.eqb "/" (lower_ascii c)) && Txt.free_of "/" (lower s)
          = negb (Ascii.eqb "/" c) && Txt.free_of "/" s).
  by rewrite lower_ascii_slash, IH.
Qed.

Lemma supported_free_of_slash (e : string) :
  Py.list_mem e SUPPORTED_EXTENSIONS = true -> Txt.free_of "/" e = true.
Proof.
  intros H. apply list_mem_In in H. simpl in H.
  destruct H as [<-|[<-|[<-|[<-|[<-|[]]]]]]; reflexivity.
Qed.

(** X23. [read_tpa_file] and [write_tpa_file] take as extension the text
    between the first and the second dot of the whole path.  When a dot
    occurs before a slash of the path, as in a path that starts with
    [./], that text contains a slash and the call fails with
    [AssertionError], whatever the extension of the file is. *)
Theorem tpa_reader_dot_in_directory (front rest : string) :
  Txt.free_of "." front = true ->
  Txt.free_of "/" (hd EmptyString (Str.split "." rest)) = false ->
  tpa_reader (front +:+ "." +:+ rest) = Raise "AssertionError".
Proof.
  intros Hfront Hslash. unfold tpa_reader, get_extension.
  change (front +:+ "." +:+ rest) with (front +:+ String "." rest).
  rewrite (split_char_app ".") by done.
  pose proof (split_char_nonempty "." rest) as Hne.
  destruct (Str.split "." rest) as [|piece pieces]; [done|].
  cbn [hd] in Hslash. cbn [lookup list_lookup]. cbv zeta.
  destruct (Py.list_mem (lower piece) SUPPORTED_EXTENSIONS) eqn:E; [|done].
  apply supported_free_of_slash in E. rewrite free_of_lower in E. congruence.
Qed.

Lemma tpa_reader_dot_in_directory_witness :
  tpa_reader ("" +:+ "." +:+ "/data/s1_ID0.txt") = Raise "AssertionError".
Proof.
  apply (tpa_reader_dot_in_directory "" "/data/s1_ID0.txt"); reflexivity.
Defined.

Lemma test_synchronization_loop_raises (pairs : list (list Q * list Q))
    (max_error : Q) (a c : list Q) :
  (a, c) ∈ pairs -> np_subtract a c = None ->
  test_synchronization_loop pairs max_error <> Some true.
Proof.
  intros Hin Hsub. induction pairs as [|[a' c'] pairs IH];
    [by apply elem_of_nil in Hin|].
  cbn [test_synchronization_loop fst snd].
  apply elem_of_cons in Hin as [[= <- <-]|Hin].
  - by rewrite Hsub.
  - destruct (np_subtract a' c') as [d|]; [|done]. cbn [mbind option_bind].
    destruct (np_max (map Qabs d)) as [m|]; [|done]. cbn [mbind option_bind].
    destruct (Np.Qltb max_error m); [done|]. by apply IH.
Qed.

(** X24. A sample in which two views have timestamp lists of different
    lengths, neither of them of length one, is never reported as
    synchronized: [test_synchronization] raises or answers False. *)
Theorem test_synchronization_unaligned (s : TPA_Sample_from_data)
    (max_error : Q) (i j : nat) (a c : list Q) :
  i < j -> timestamps s !! i = Some a -> timestamps s !! j = Some c ->
  length a <> length c -> length a <> 1 -> length c <> 1 ->
  test_synchronization s max_error <> Some true.
Proof.
  intros Hij Hi Hj Hne Ha Hc. unfold test_synchronization.
  apply (test_synchronization_loop_raises _ _ a c).
  - apply combinations2_lookup. by exists i, j.
  - unfold np_subtract. destruct (Nat.eqb_spec (length a) (length c)); [done|].
    destruct a as [|x [|x' a]]; [|done|]; by destruct c as [|y [|y' c]].
Qed.

Lemma test_synchronization_unaligned_witness :
  test_synchronization two_views 100 <> Some true.
Proof.
  apply (test_synchronization_unaligned two_views 100 0 1
           [10.5; 11; 11.5]%Q [10.25; 11.6]%Q); try done.
  lia.
Defined.
